(** * PartsBasedDetector: the dynamic program and the detector front end

    A shallow embedding of [src/DynamicProgram.cpp] and
    [src/PartsBasedDetector.cpp].

    Conventions of the embedding.
    - [int] is [Z]; no overflow is modelled (every index below is bounded by
      the size of a plane).
    - a C++ [float] is a [float] below: the IEEE special values, and exact
      rationals for the finite ones.  Rounding, overflow of a finite result
      to an infinity and the sign of zero are not tracked.
    - [size_t] has 64 bits.
    - Every raw memory access ([new T[n]] buffers, [Mat::ptr<T>(m)[n]],
      [vector::operator[]]) is checked.  What is undefined behaviour in C++
      is an explicit [Err] here, and an [assert] that fails is an [Err] too.
    - [cv::Mat] is a header (rows, cols, continuity flag) over row-major data. *)

From Stdlib Require Import String ZArith QArith List Bool Lia.
Import ListNotations.

Local Open Scope Z_scope.

(** ** Outcomes of a checked run *)

Inductive error : Type :=
| OutOfBounds (buffer : string) (index : Z)
| Uninitialised (buffer : string) (index : Z)
| AssertionFailed (condition : string)
| BadAlloc (buffer : string)
| OutOfFuel.

Inductive result (A : Type) : Type :=
| Ok (a : A)
| Err (e : error).

Arguments Ok {A} a.
Arguments Err {A} e.

Definition bind {A B : Type} (c : result A) (k : A -> result B) : result B :=
  match c with
  | Ok a => k a
  | Err e => Err e
  end.

Notation "x <- c ;; k" := (bind c (fun x => k))
  (at level 61, c at next level, right associativity).
Notation "' p <- c ;; k" := (bind c (fun x => let p := x in k))
  (at level 61, p pattern, c at next level, right associativity).

Definition assert (b : bool) (condition : string) : result unit :=
  if b then Ok tt else Err (AssertionFailed condition).

Definition is_ok {A : Type} (r : result A) : bool :=
  match r with Ok _ => true | Err _ => false end.

(** [for (int q = lo; q < hi; ++q) body] over a threaded state. *)
Fixpoint for_iter {S : Type} (count : nat) (q : Z)
    (body : Z -> S -> result S) (s : S) : result S :=
  match count with
  | O => Ok s
  | Datatypes.S c => s' <- body q s ;; for_iter c (q + 1) body s'
  end.

Definition for_loop {S : Type} (lo hi : Z)
    (body : Z -> S -> result S) (s : S) : result S :=
  for_iter (Z.to_nat (hi - lo)) lo body s.

(** ** The [float] model *)

Inductive float : Type :=
| NaN
| NegInf
| Fin (x : Q)
| PosInf.

Module F.

Definition of_int (i : Z) : float := Fin (inject_Z i).

Definition neg (x : float) : float :=
  match x with
  | NaN => NaN
  | NegInf => PosInf
  | Fin q => Fin (- q)%Q
  | PosInf => NegInf
  end.

Definition add (x y : float) : float :=
  match x, y with
  | NaN, _ | _, NaN => NaN
  | PosInf, NegInf | NegInf, PosInf => NaN
  | PosInf, _ | _, PosInf => PosInf
  | NegInf, _ | _, NegInf => NegInf
  | Fin p, Fin q => Fin (p + q)%Q
  end.

Definition sub (x y : float) : float := add x (neg y).

(** the sign of a finite value: [-1], [0] or [1] *)
Definition sgn (q : Q) : Z := Z.sgn (Qnum q).

Definition signed_inf (s : Z) : float :=
  if s =? 0 then NaN else if s >? 0 then PosInf else NegInf.

Definition mul (x y : float) : float :=
  match x, y with
  | NaN, _ | _, NaN => NaN
  | Fin p, Fin q => Fin (p * q)%Q
  | Fin p, PosInf | PosInf, Fin p => signed_inf (sgn p)
  | Fin p, NegInf | NegInf, Fin p => signed_inf (- sgn p)
  | PosInf, PosInf | NegInf, NegInf => PosInf
  | PosInf, NegInf | NegInf, PosInf => NegInf
  end.

(** a finite value over zero is an infinity of its sign (zero is taken
    as [+0]), and [0/0] is [NaN] *)
Definition div (x y : float) : float :=
  match x, y with
  | NaN, _ | _, NaN => NaN
  | Fin p, Fin q =>
      if sgn q =? 0 then signed_inf (sgn p) else Fin (p / q)%Q
  | Fin _, PosInf | Fin _, NegInf => Fin 0
  | PosInf, Fin q => if sgn q <? 0 then NegInf else PosInf
  | NegInf, Fin q => if sgn q <? 0 then PosInf else NegInf
  | _, _ => NaN
  end.

(** comparisons: false as soon as one side is [NaN] *)
Definition leb (x y : float) : bool :=
  match x, y with
  | NaN, _ | _, NaN => false
  | NegInf, _ => true
  | _, PosInf => true
  | Fin p, Fin q => Qle_bool p q
  | _, _ => false
  end.

Definition ltb (x y : float) : bool :=
  match x, y with
  | NaN, _ | _, NaN => false
  | PosInf, _ => false
  | _, NegInf => false
  | Fin p, Fin q => negb (Qle_bool q p)
  | _, _ => true
  end.

Definition gtb (x y : float) : bool := ltb y x.

Definition is_finite (x : float) : bool :=
  match x with Fin _ => true | _ => false end.

Definition is_nan (x : float) : bool :=
  match x with NaN => true | _ => false end.

End F.

Declare Scope float_scope.
Delimit Scope float_scope with F.
Bind Scope float_scope with float.
Infix "+" := F.add : float_scope.
Infix "-" := F.sub : float_scope.
Infix "*" := F.mul : float_scope.
Infix "/" := F.div : float_scope.
Notation "- x" := (F.neg x) : float_scope.
Infix "<=?" := F.leb : float_scope.
Infix "<?" := F.ltb : float_scope.
Infix ">?" := F.gtb : float_scope.

(** ** Checked memory *)

(** [new T[n]]: [n] cells, none of them written yet *)
Definition new_array {T : Type} (buffer : string) (n : Z)
  : result (list (option T)) :=
  if n <? 0 then Err (BadAlloc buffer) else Ok (repeat None (Z.to_nat n)).

(** [p[i]] read from a buffer that was passed in (all of it initialised) *)
Definition load {T : Type} (buffer : string) (p : list T) (i : Z) : result T :=
  if i <? 0 then Err (OutOfBounds buffer i)
  else match nth_error p (Z.to_nat i) with
       | Some x => Ok x
       | None => Err (OutOfBounds buffer i)
       end.

(** [p[i]] read from a [new T[n]] buffer *)
Definition load_cell {T : Type} (buffer : string) (p : list (option T)) (i : Z)
  : result T :=
  c <- load buffer p i ;;
  match c with
  | Some x => Ok x
  | None => Err (Uninitialised buffer i)
  end.

Fixpoint set_nth {T : Type} (p : list T) (i : nat) (x : T) : list T :=
  match p, i with
  | [], _ => []
  | _ :: p', O => x :: p'
  | y :: p', S i' => y :: set_nth p' i' x
  end.

(** [p[i] = x] on a [new T[n]] buffer *)
Definition store {T : Type} (buffer : string) (p : list (option T)) (i : Z) (x : T)
  : result (list (option T)) :=
  if (i <? 0) || (Z.of_nat (length p) <=? i) then Err (OutOfBounds buffer i)
  else Ok (set_nth p (Z.to_nat i) (Some x)).

(** ** [distanceTransform1D] (DynamicProgram.cpp, lines 140-188) *)

Definition square (x : Z) : Z := x * x.

(** The intersection of the parabola rooted at [q] with the one rooted at
    [v[k]] (the right-hand side of lines 167 and 171). *)
Definition intersection (src : list float) (a b : float) (q : Z)
    (v : list (option Z)) (k : Z) : result float :=
  vk <- load_cell "v" v k ;;
  src_q <- load "src" src q ;;
  src_vk <- load "src" src vk ;;
  Ok (((src_q - src_vk) - b * F.of_int (q - vk)
       + a * F.of_int (square q - square vk))
      / (F.of_int 2 * a * F.of_int (q - vk)))%F.

(** [while (s <= z[k]) { k--; s = ...; }] (lines 168-172) *)
Fixpoint pop_loop (fuel : nat) (src : list float) (a b : float) (q : Z)
    (v : list (option Z)) (z : list (option float)) (k : Z) (s : float)
  : result (Z * float) :=
  zk <- load_cell "z" z k ;;
  if (s <=? zk)%F then
    match fuel with
    | O => Err OutOfFuel
    | S fuel' =>
        let k := k - 1 in
        s <- intersection src a b q v k ;;
        pop_loop fuel' src a b q v z k s
    end
  else Ok (k, s).

(** [while (z[k+1] < q) k++;] (line 181) *)
Fixpoint advance (fuel : nat) (z : list (option float)) (k q : Z) : result Z :=
  zk1 <- load_cell "z" z (k + 1) ;;
  if (zk1 <? F.of_int q)%F then
    match fuel with
    | O => Err OutOfFuel
    | S fuel' => advance fuel' z (k + 1) q
    end
  else Ok k.

(** The body of the first loop (lines 167-176). *)
Definition envelope_step (fuel : nat) (src : list float) (a b : float) (q : Z)
    (st : list (option Z) * list (option float) * Z)
  : result (list (option Z) * list (option float) * Z) :=
  let '(v, z, k) := st in
  s <- intersection src a b q v k ;;
  ' (k, s) <- pop_loop fuel src a b q v z k s ;;
  let k := k + 1 in
  v <- store "v" v k q ;;
  z <- store "z" z k s ;;
  z <- store "z" z (k + 1) PosInf ;;
  Ok (v, z, k).

(** The body of the second loop (lines 181-183); [dst] and [ptr] are filled
    from index 0 upwards, so they are accumulated as lists. *)
Definition fill_step (fuel : nat) (src : list float) (a b : float)
    (v : list (option Z)) (z : list (option float)) (q : Z)
    (st : Z * list float * list Z) : result (Z * list float * list Z) :=
  let '(k, dst, ptr) := st in
  k <- advance fuel z k q ;;
  vk <- load_cell "v" v k ;;
  src_vk <- load "src" src vk ;;
  Ok (k,
      dst ++ [(a * F.of_int (square (q - vk)) + b * F.of_int (q - vk) + src_vk)%F],
      ptr ++ [vk]).

(** Neither loop can iterate more often than [z] has cells. *)
Definition loop_fuel (n : Z) : nat := Z.to_nat n + 2.

Definition distanceTransform1D (src : list float) (n : Z) (a b : float)
  : result (list float * list Z) :=
  v <- new_array "v" n ;;
  z <- new_array "z" (n + 1) ;;
  let k := 0 in
  v <- store "v" v 0 0 ;;
  z <- store "z" z 0 PosInf ;;
  z <- store "z" z 1 NegInf ;;
  ' (v, z, k) <- for_loop 1 n (envelope_step (loop_fuel n) src a b) (v, z, k) ;;
  let k := 0 in
  ' (k, dst, ptr) <- for_loop 0 n (fill_step (loop_fuel n) src a b v z) (k, [], []) ;;
  Ok (dst, ptr).

Definition fin_one : float := F.of_int 1.

(** ** [cv::Mat] *)

(** A matrix header over row-major [data]; [isContinuous] tells whether the
    rows follow each other in memory without gaps (true for every matrix
    that [create] allocates, false for a region of interest). *)
Record Mat (T : Type) : Type := mkMat {
  rows : Z;
  cols : Z;
  isContinuous : bool;
  data : list T
}.

Arguments mkMat {T} rows cols isContinuous data.
Arguments rows {T} m.
Arguments cols {T} m.
Arguments isContinuous {T} m.
Arguments data {T} m.

(** [m.size()], a [cv::Size]: width first *)
Definition size {T : Type} (m : Mat T) : Z * Z := (cols m, rows m).

Definition size_eqb (a b : Z * Z) : bool :=
  (fst a =? fst b) && (snd a =? snd b).

(** [m.ptr<T>(i)]: what can be addressed from the start of row [i].  In a
    continuous matrix that is the rest of the buffer, otherwise the row. *)
Definition ptr {T : Type} (m : Mat T) (i : Z) : list T :=
  let from_row := skipn (Z.to_nat (i * cols m)) (data m) in
  if isContinuous m then from_row else firstn (Z.to_nat (cols m)) from_row.

(** the matrix [create(Size(width, height), type)] allocates, once every
    row of it has been written *)
Definition created {T : Type} (sz : Z * Z) (filled : list (list T)) : Mat T :=
  mkMat (snd sz) (fst sz) true (concat filled).

Definition range (lo hi : Z) : list Z :=
  map (fun i => lo + Z.of_nat i) (seq 0 (Z.to_nat (hi - lo))).

Fixpoint mapM {A B : Type} (f : A -> result B) (l : list A) : result (list B) :=
  match l with
  | [] => Ok []
  | x :: l' => y <- f x ;; ys <- mapM f l' ;; Ok (y :: ys)
  end.

(** [cv::transpose(m, m)] *)
Definition transpose {T : Type} (m : Mat T) : Mat T :=
  mkMat (cols m) (rows m) true
    (flat_map (fun j =>
       flat_map (fun i =>
         match nth_error (data m) (Z.to_nat (i * cols m + j)) with
         | Some x => [x]
         | None => []
         end) (range 0 (rows m)))
     (range 0 (cols m))).

(** ** [reducePickIndex] (DynamicProgram.cpp, lines 66-91) *)

(** [cv::minMaxLoc(idx, &minv, &maxv)]; both are 0 on an empty matrix *)
Definition minMaxLoc (idx : Mat Z) : Z * Z :=
  match data idx with
  | [] => (0, 0)
  | x :: xs => (fold_left Z.min xs x, fold_left Z.max xs x)
  end.

Definition reducePickIndex {T : Type} (inp : list (Mat T)) (idx : Mat Z)
  : result (Mat T) :=
  let K := Z.of_nat (length inp) in
  let '(minv, maxv) := minMaxLoc idx in
  _ <- assert ((minv >=? 0) && (maxv <? K)) "minv >= 0 && maxv < K" ;;
  _ <- mapM (fun k =>
         ink <- load "in" inp k ;;
         assert (size_eqb (size ink) (size idx)) "in[k].size() == idx.size()")
       (range 0 K) ;;
  in0 <- load "in" inp 0 ;;
  let M := rows in0 in
  let N := cols in0 in
  let '(M, N) := if isContinuous in0 then (1, M * N) else (M, N) in
  out <- mapM (fun m =>
           let idx_ptr := ptr idx m in
           let in_ptr := map (fun ink => ptr ink m) inp in
           mapM (fun n =>
             i <- load "idx_ptr" idx_ptr n ;;
             p <- load "in_ptr" in_ptr i ;;
             load "in_ptr[idx_ptr[n]]" p n)
           (range 0 N))
         (range 0 M) ;;
  Ok (created (size in0) out).

(** ** [reduceMax] (DynamicProgram.cpp, lines 104-132) *)

(** line 127: [if (in_ptr[k][n] > v) { i = n; v = in_ptr[k][n]; }] *)
Definition max_step (in_ptr : list (list float)) (n k : Z) (st : Z * float)
  : result (Z * float) :=
  let '(i, v) := st in
  p <- load "in_ptr" in_ptr k ;;
  x <- load "in_ptr[k]" p n ;;
  if (x >? v)%F then Ok (n, x) else Ok (i, v).

Definition reduceMax (inp : list (Mat float)) : result (Mat float * Mat Z) :=
  let K := Z.of_nat (length inp) in
  _ <- assert (K >? 1) "K > 1" ;;
  _ <- mapM (fun k =>
         ink <- load "in" inp k ;;
         ink1 <- load "in" inp (k - 1) ;;
         assert (size_eqb (size ink) (size ink1)) "in[k].size() == in[k-1].size()")
       (range 1 K) ;;
  in0 <- load "in" inp 0 ;;
  let M := rows in0 in
  let N := cols in0 in
  let '(M, N) := if isContinuous in0 then (1, M * N) else (M, N) in
  out <- mapM (fun m =>
           let in_ptr := map (fun ink => ptr ink m) inp in
           mapM (fun n => for_loop 0 K (max_step in_ptr n) (0, NegInf))
                (range 0 N))
         (range 0 M) ;;
  Ok (created (size in0) (map (map snd) out),
      created (size in0) (map (map fst) out)).

(** ** [distanceTransform] (DynamicProgram.cpp, lines 207-257) *)

Section DistanceTransform.

(** The row transform that lines 229 and 237 call. *)
Variable dt1d : list float -> Z -> float -> float -> result (list float * list Z).

(** lines 246-256: [row_ptr[n] = Iy_ptr[Ix_ptr[n]]], then the row is
    copied back over [Iy] *)
Definition compose_argmins (M N : Z) (Ix Iy : Mat Z) : result (Mat Z) :=
  Iy_rows <- mapM (fun m =>
               let Iy_ptr := ptr Iy m in
               let Ix_ptr := ptr Ix m in
               mapM (fun n =>
                 ix <- load "Ix_ptr" Ix_ptr n ;;
                 load "Iy_ptr" Iy_ptr ix)
               (range 0 N))
             (range 0 M) ;;
  Ok (created (size Iy) Iy_rows).

Definition distanceTransform_with (score_in : Mat float) (w : list float)
  : result (Mat float * Mat Z * Mat Z) :=
  let M := rows score_in in
  let N := cols score_in in
  ax <- load "w" w 0 ;;
  bx <- load "w" w 1 ;;
  ay <- load "w" w 2 ;;
  by_ <- load "w" w 3 ;;
  (* across the rows *)
  pass <- mapM (fun m => dt1d (ptr score_in m) N (- ax)%F (- bx)%F) (range 0 M) ;;
  let score_tmp := created (N, M) (map fst pass) in
  let Ix := created (N, M) (map snd pass) in
  let score_tmp := transpose score_tmp in
  (* down the columns *)
  pass <- mapM (fun n => dt1d (ptr score_tmp n) M (- ay)%F (- by_)%F) (range 0 N) ;;
  let score_out := created (M, N) (map fst pass) in
  let Iy := created (M, N) (map snd pass) in
  let score_out := transpose score_out in
  let Iy := transpose Iy in
  Iy <- compose_argmins M N Ix Iy ;;
  Ok (score_out, Ix, Iy).

End DistanceTransform.

Definition distanceTransform : Mat float -> list float -> result (Mat float * Mat Z * Mat Z) :=
  distanceTransform_with distanceTransform1D.

(** ** The part tree *)

(** Modelled from the spec: the [Part] class (Part.hpp is not part of the
    sources).  A node carries what its accessors return: [pos()],
    [nmixtures()], [w()], [bias()], [anchor()] as [(x, y)],
    [ndescendants()] and [children()]; a leaf is a node without children. *)
#[warnings="-register-all"]
Inductive Part : Type := mkPart {
  pos : Z;
  nmixtures : Z;
  w : list (list float);
  bias : list (list float);
  anchor : Z * Z;
  ndescendants : Z;
  children : list Part
}.

Definition isLeaf (p : Part) : bool :=
  match children p with [] => true | _ => false end.

(** ** [minRecursive] (DynamicProgram.cpp, lines 260-337) *)

(** [Mat(m, rowRange, colRange)], the header [m(rowRange, colRange)] builds:
    a range that is not the whole extent is asserted to lie inside it. *)
Definition range_ok (r : Z * Z) (extent : Z) : bool :=
  let '(start, stop) := r in
  ((start =? 0) && (stop =? extent))
  || ((0 <=? start) && (start <=? stop) && (stop <=? extent)).

Definition roi {T : Type} (m : Mat T) (rowRange colRange : Z * Z) : result unit :=
  assert (range_ok rowRange (rows m) && range_ok colRange (cols m))
         "0 <= range.start && range.start <= range.end && range.end <= extent".

(** [dst(r1, c1) = src(r2, c2);] (lines 304-306).  Both headers are built
    (and their ranges checked); the assignment is [Mat::operator=(const Mat&)]
    on the temporary header [dst(r1, c1)], which rebinds that temporary and
    copies no element, so [dst] keeps its contents. *)
Definition assign_roi {T : Type} (dst : Mat T) (r1 c1 : Z * Z)
    (src : Mat T) (r2 c2 : Z * Z) : result (Mat T) :=
  _ <- roi dst r1 c1 ;;
  _ <- roi src r2 c2 ;;
  Ok dst.

(** [Mat::ones], [Mat::zeros] and the like: every cell holds [x] *)
Definition filled {T : Type} (sz : Z * Z) (x : T) : Mat T :=
  mkMat (snd sz) (fst sz) true (repeat x (Z.to_nat (snd sz * fst sz))).

(** [m + s] with a scalar [s] *)
Definition add_scalar (m : Mat float) (s : float) : Mat float :=
  mkMat (rows m) (cols m) true (map (fun x => (x + s)%F) (data m)).

(** [v[i] = x] on a [std::vector] *)
Definition assign {T : Type} (buffer : string) (v : list T) (i : Z) (x : T)
  : result (list T) :=
  if (i <? 0) || (Z.of_nat (length v) <=? i) then Err (OutOfBounds buffer i)
  else Ok (set_nth v (Z.to_nat i) x).

(** lines 288-306: the anchor shift of one transformed mixture *)
Definition shift_by_anchor (self : Part) (score_in score_dt : Mat float)
    (Ix_dt Iy_dt : Mat Z) : result (Mat float * Mat Z * Mat Z) :=
  let '(anchor_x, anchor_y) := anchor self in
  let X := cols score_in in
  let Y := rows score_in in
  let xmin := Z.max anchor_x 0 in
  let ymin := Z.max anchor_y 0 in
  let xmax := Z.min (anchor_x + X) X in
  let ymax := Z.min (anchor_y + Y) X in
  let xoff := Z.max (- anchor_x) 0 in
  let yoff := Z.max (- anchor_y) 0 in
  let score := filled (size score_dt) (NegInf * fin_one)%F in
  let Ixm := filled (size Ix_dt) 0 in
  let Iym := filled (size Iy_dt) 0 in
  score <- assign_roi score (xoff, xoff + xmax - xmin) (yoff, yoff + ymax - ymin)
                      score_dt (xmin, xmax) (ymin, ymax) ;;
  Ixm <- assign_roi Ixm (xoff, xoff + xmax - xmin) (yoff, yoff + ymax - ymin)
                    Ix_dt (xmin, xmax) (ymin, ymax) ;;
  Iym <- assign_roi Iym (xoff, xoff + xmax - xmin) (yoff, yoff + ymax - ymin)
                    Iy_dt (xmin, xmax) (ymin, ymax) ;;
  Ok (score, Ixm, Iym).

(** lines 280-312: the first loop over the mixtures; it fills the
    intermediate vectors [scoresi], [Ixi] and [Iyi]. *)
Definition transform_mixture (self : Part) (scores : list (Mat float)) (Ns m : Z)
  : result (Mat float * Mat Z * Mat Z) :=
  score_in <- load "scores" scores (Ns + m) ;;
  wm <- load "w" (w self) m ;;
  ' (score_dt, Ix_dt, Iy_dt) <- distanceTransform score_in wm ;;
  shift_by_anchor self score_in score_dt Ix_dt Iy_dt.

Definition transform_mixtures (self : Part) (scores : list (Mat float)) (Ns : Z)
  : result (list (Mat float) * list (Mat Z) * list (Mat Z)) :=
  shifted <- mapM (transform_mixture self scores Ns) (range 0 (nmixtures self)) ;;
  Ok (map (fun t => fst (fst t)) shifted,
      map (fun t => snd (fst t)) shifted,
      map snd shifted).

(** The locals of [minRecursive] that the second loop reads and writes:
    the intermediate vectors, the final vectors [Ix], [Iy], [Ik], and the
    shared [scores]. *)
Record mixing : Type := mkMixing {
  scoresi : list (Mat float);
  Ixi : list (Mat Z);
  Iyi : list (Mat Z);
  Ix : list (Mat Z);
  Iy : list (Mat Z);
  Ik : list (Mat Z);
  scores : list (Mat float)
}.

(** lines 316-335: the body of the second loop, for the parent mixture [m] *)
Definition mix_step (self : Part) (Np m : Z) (st : mixing) : result mixing :=
  bias_m <- load "bias" (bias self) m ;;
  weighted <- mapM (fun mm =>
                plane <- load "scores" (scores st) mm ;;
                b <- load "bias[m]" bias_m mm ;;
                Ok (add_scalar plane b))
              (range 0 (nmixtures self)) ;;
  ' (maxv, maxi) <- reduceMax weighted ;;
  Ixm <- reducePickIndex (Ixi st) maxi ;;
  Iym <- reducePickIndex (Iyi st) maxi ;;
  scores' <- assign "scores" (scores st) (Np + m) maxv ;;
  Ok (mkMixing (scoresi st) (Ixi st) (Iyi st)
               (Ix st ++ [Ixm]) (Iy st ++ [Iym]) (Ik st ++ [maxi]) scores').

(** lines 267-336: what [minRecursive] does at a node once its children
    have run *)
Definition pass_message (self parent : Part) (scores : list (Mat float))
    (nparts scale : Z) : result mixing :=
  let nmix := nmixtures self in
  let Ns := nparts * nmix * scale + nmix * pos self in
  let Np := nparts * nmix * scale + nmix * pos parent in
  ' (scoresi, Ixi, Iyi) <- transform_mixtures self scores Ns ;;
  for_loop 0 nmix (mix_step self Np) (mkMixing scoresi Ixi Iyi [] [] [] scores).

(** [minRecursive]: the children first, then the node itself.  The vectors
    [Ix], [Iy] and [Ik] are locals and are gone on return; [scores] is the
    caller's vector. *)
Fixpoint minRecursive (self parent : Part) (scores : list (Mat float))
    (nparts scale : Z) {struct self} : result (list (Mat float)) :=
  scores <-
    (if isLeaf self then Ok scores
     else
       (fix visit (cs : list Part) (scores : list (Mat float)) :=
          match cs with
          | [] => Ok scores
          | c :: cs' =>
              scores <- minRecursive c self scores nparts scale ;;
              visit cs' scores
          end) (children self) scores) ;;
  ' (mkMixing _ _ _ _ _ _ scores) <- pass_message self parent scores nparts scale ;;
  Ok scores.

(** ** [min] and [argmin] (DynamicProgram.cpp, lines 358-381) *)

(** the conversion of an [int] to [size_t] that the comparison of line 361
    applies to its right-hand side *)
Definition to_size_t (i : Z) : Z := i mod 2 ^ 64.

(** [min]: the assertion, then the locals of lines 364-369; the body ends
    there, so [responses] comes back as it went in. *)
Definition min (rootpart : Part) (responses : list (Mat float)) (nscales : Z)
  : result (list (Mat float)) :=
  _ <- assert (Z.of_nat (length responses)
               =? to_size_t (ndescendants rootpart + 1 * nmixtures rootpart * nscales))
         "responses.size() == (rootpart.ndescendants()+1 * rootpart.nmixtures() * nscales)" ;;
  let os := 0 in
  let scale := 0 in
  let nparts := ndescendants rootpart + 1 in
  let nmix := nmixtures rootpart in
  first <- load "responses" responses (nparts * nmix * scale) ;;
  let Y := rows first in
  let X := cols first in
  Ok responses.

Section Detector.

(** What PartsBasedDetector.hpp and its collaborators declare (none of it
    is part of the sources): the candidate and image types and the
    feature provider [features_]. *)
Variables Candidate Image Level : Type.
Variable features_pyramid : Image -> list Level.
Variable features_pdf : list Level -> list Level -> list (Mat float).
Variable features_nscales : Z.
Variable root_ : Part.

Definition argmin : list Candidate := [].

(** [PartsBasedDetector::detect] (PartsBasedDetector.cpp, lines 52-69) *)
Definition detect (im : Image) : result (list Candidate) :=
  let pyramid := features_pyramid im in
  let filters := [] in
  let pdf := features_pdf pyramid filters in
  pdf <- min root_ pdf features_nscales ;;
  let candidates := argmin in
  Ok [].

End Detector.

(** ** Predicates, reference definitions and sample inputs of the statements *)

Definition all_finite (xs : list float) : Prop := forallb F.is_finite xs = true.

(** a matrix whose buffer holds exactly its [rows * cols] elements *)
Definition well_formed {T : Type} (m : Mat T) : Prop :=
  0 <= rows m /\ 0 <= cols m /\ Z.of_nat (length (data m)) = rows m * cols m.

(** every row pointer of [in_ptr] holds a finite value at offset [n] *)
Definition finite_column (in_ptr : list (list float)) (n : Z) : Prop :=
  Forall (fun p => exists x, nth_error p (Z.to_nat n) = Some (Fin x)) in_ptr.

(** the value plane [j] holds at offset [n] of its row pointer *)
Definition value_at (in_ptr : list (list float)) (n : Z) (j : nat) (x : float) : Prop :=
  exists p, nth_error in_ptr j = Some p /\ nth_error p (Z.to_nat n) = Some x.

(** [v] is attained among the planes before [k] and bounds them all *)
Definition max_of_prefix (in_ptr : list (list float)) (n : Z) (k : nat) (v : float) : Prop :=
  (exists j, (j < k)%nat /\ value_at in_ptr n j v) /\
  (forall j x, (j < k)%nat -> value_at in_ptr n j x -> (x <=? v)%F = true).

(** the planes [reduceMax] is meant for: one shape, dense, finite scores *)
Definition dense_finite (r c : Z) (p : Mat float) : Prop :=
  rows p = r /\ cols p = c /\ isContinuous p = true /\
  Z.of_nat (length (data p)) = r * c /\ all_finite (data p).

Definition plane (r c : Z) (xs : list Z) : Mat float :=
  mkMat r c true (map F.of_int xs).

(** [reducePickIndex] fed with the index plane of [reduceMax] *)
Definition pick_after_max (planes : list (Mat float)) : result (Mat float * Mat float) :=
  ' (maxVal, maxIdx) <- reduceMax planes ;;
  picked <- reducePickIndex planes maxIdx ;;
  Ok (maxVal, picked).

(** the locals [st] with another vector of shifted planes in [scoresi] *)
Definition with_scoresi (st : mixing) (shifted : list (Mat float)) : mixing :=
  mkMixing shifted (Ixi st) (Iyi st) (Ix st) (Iy st) (Ik st) (scores st).

(** a node with two mixtures and no pairwise bias, and its parent *)
Definition two_mixtures (position : Z) (kids : list Part) : Part :=
  mkPart position 2
         [[F.of_int 1; F.of_int 1; F.of_int 1; F.of_int 1];
          [F.of_int 1; F.of_int 1; F.of_int 1; F.of_int 1]]
         [[F.of_int 0; F.of_int 0]; [F.of_int 0; F.of_int 0]]
         (0, 0) (Z.of_nat (length kids)) kids.

(** one mixture, unit deformation weights, zero bias *)
Definition single_mixture (position : Z) (anchor : Z * Z) (kids : list Part) : Part :=
  mkPart position 1
         [[F.of_int 1; F.of_int 1; F.of_int 1; F.of_int 1]]
         [[F.of_int 0]]
         anchor (Z.of_nat (length kids)) kids.

Definition scenario_leaf : Part := single_mixture 1 (1, 0) [].
Definition scenario_root : Part := single_mixture 0 (0, 0) [scenario_leaf].

(** the 5 x 5 responses: the root's is flat, the leaf's peaks at (2, 3) *)
Definition flat5 : Mat float := plane 5 5 (repeat 0 25).
Definition peak5 : Mat float := plane 5 5 (repeat 0 13 ++ [10] ++ repeat 0 11).

Definition within_fuel {A : Type} (r : result A) : Prop :=
  match r with
  | Err OutOfFuel => False
  | _ => True
  end.

(** Reference row transform, written after the spec's words (4.2):
    [dst[q]] is the minimum over [p] in [0, n) of
    [a (q-p)^2 + b (q-p) + src[p]], and [arg[q]] is the first [p] that
    attains it. *)
Definition dt1d_exact (src : list float) (n : Z) (a b : float)
  : result (list float * list Z) :=
  cells <- mapM (fun q =>
             for_loop 0 n (fun p best =>
               x <- load "src" src p ;;
               let c := (a * F.of_int (square (q - p)) + b * F.of_int (q - p) + x)%F in
               if (c <? fst best)%F then Ok (c, p) else Ok best)
             (PosInf, 0))
           (range 0 n) ;;
  Ok (map fst cells, map snd cells).

(** the deformation cost between cell [(i, j)] and the source cell
    [(si, sj)], plus the input score there, in the sign convention of the
    row transforms *)
Definition direct_cost (score_in : Mat float) (w : list float) (i j si sj : Z)
  : result float :=
  ax <- load "w" w 0 ;;
  bx <- load "w" w 1 ;;
  ay <- load "w" w 2 ;;
  by_ <- load "w" w 3 ;;
  x <- load "score_in" (data score_in) (si * cols score_in + sj) ;;
  Ok ((- ax) * F.of_int (square (j - sj)) + (- bx) * F.of_int (j - sj)
      + ((- ay) * F.of_int (square (i - si)) + (- by_) * F.of_int (i - si))
      + x)%F.

(** a dense [r] x [c] matrix of any element type *)
Definition dense {T : Type} (r c : Z) (p : Mat T) : Prop :=
  rows p = r /\ cols p = c /\ isContinuous p = true /\
  Z.of_nat (length (data p)) = r * c.

(** every entry of an index plane names one of [K] planes *)
Definition indices_below (K : Z) (idx : Mat Z) : Prop :=
  Forall (fun k => 0 <= k < K) (data idx).

(** every position on the stack [v] is a position of the input *)
Definition slots_in_range (n : Z) (v : list (option Z)) : Prop :=
  Forall (fun c => match c with Some p => 0 <= p < n | None => True end) v.

(** [d] is the parabola rooted at [p] read at [q] (line 182) *)
Definition parabola_at (src : list float) (a b : float) (q p : Z) (d : float) : Prop :=
  exists x, nth_error src (Z.to_nat p) = Some x
            /\ d = (a * F.of_int (square (q - p)) + b * F.of_int (q - p) + x)%F.

(** the cells of [dst] and [arg] filled so far *)
Definition filled_so_far (src : list float) (a b : float) (n q : Z)
    (st : Z * list float * list Z) : Prop :=
  let '(_, dst, arg) := st in
  Z.of_nat (length dst) = q /\ Z.of_nat (length arg) = q
  /\ forall i, 0 <= i < q ->
       exists p d, nth_error arg (Z.to_nat i) = Some p /\ 0 <= p < n
                   /\ nth_error dst (Z.to_nat i) = Some d
                   /\ parabola_at src a b i p d.

(** the stack when no parabola was ever popped: before candidate [q] is
    handled, [v] holds the positions [0 .. q-1], [z[0]] is [+inf] and the
    breakpoints [z[1 .. q-1]] are NaN *)
Definition stacked (n q : Z) (st : list (option Z) * list (option float) * Z) : Prop :=
  let '(v, z, k) := st in
  k = q - 1 /\ Z.of_nat (length v) = n /\ Z.of_nat (length z) = n + 1
  /\ (forall j, 0 <= j < q -> nth_error v (Z.to_nat j) = Some (Some j))
  /\ nth_error z 0 = Some (Some PosInf)
  /\ (forall j, 1 <= j < q -> nth_error z (Z.to_nat j) = Some (Some NaN)).

(** Scores and weights of moderate size: at most [2^125] in magnitude, so
    that the differences and sums of line 167 stay finite in binary32 and
    the intersection is a number there as it is here. *)
Definition moderate_bound : Q := inject_Z (2 ^ 125).

Definition moderate (x : float) : Prop :=
  match x with
  | Fin q => (- moderate_bound <= q)%Q /\ (q <= moderate_bound)%Q
  | _ => False
  end.

(** a weight that is not zero and not below the normal range of binary32 *)
Definition clear_of_zero (q : Q) : Prop :=
  (q <= - (1 # 2 ^ 125))%Q \/ ((1 # 2 ^ 125) <= q)%Q.

(** * Properties *)

(** ** Small facts about the arithmetic and the checked memory *)

Lemma bind_err {A B : Type} (c : result A) (k : A -> result B) (e : error) :
  c = Err e -> bind c k = Err e.
Proof. intros ->. reflexivity. Qed.

Lemma leb_PosInf (s : float) : F.is_nan s = false -> (s <=? PosInf)%F = true.
Proof. destruct s; simpl; congruence. Qed.

Lemma sgn_mult (p q : Q) : F.sgn (p * q) = F.sgn p * F.sgn q.
Proof. unfold F.sgn. simpl. apply Z.sgn_mul. Qed.

Lemma sgn_pos (q : Q) : (0 < q)%Q -> F.sgn q = 1.
Proof.
  unfold F.sgn, Qlt. simpl. intros H. apply Z.sgn_pos. lia.
Qed.

Lemma for_iter_err {S : Type} (count : nat) (q : Z)
    (body : Z -> S -> result S) (s : S) (e : error) :
  body q s = Err e -> for_iter (Datatypes.S count) q body s = Err e.
Proof. intros H. simpl. rewrite H. reflexivity. Qed.

Lemma mapM_head_err {A B : Type} (f : A -> result B) (x : A) (l : list A) (e : error) :
  f x = Err e -> mapM f (x :: l) = Err e.
Proof. intros H. simpl. rewrite H. reflexivity. Qed.

(** ** The lower-envelope pass reads [v[-1]] *)

(** The intersection of two finite samples under finite coefficients with
    [a <> 0] is a finite number. *)
Lemma intersection_finite (src : list float) (qa qb : Q) (q : Z)
    (v : list (option Z)) (k vk : Z) (x y : Q) :
  load_cell "v" v k = Ok vk ->
  load "src" src q = Ok (Fin x) ->
  load "src" src vk = Ok (Fin y) ->
  F.sgn qa <> 0 -> q <> vk ->
  exists s, intersection src (Fin qa) (Fin qb) q v k = Ok (Fin s).
Proof.
  intros Hv Hq Hvk Ha Hne. unfold intersection.
  rewrite Hv. simpl. rewrite Hq. simpl. rewrite Hvk. simpl.
  destruct (F.sgn (inject_Z 2 * qa * inject_Z (q - vk)) =? 0) eqn:E.
  - exfalso. apply Z.eqb_eq in E. rewrite !sgn_mult in E.
    apply Z.eq_mul_0 in E. destruct E as [E | E].
    + apply Z.eq_mul_0 in E. destruct E; [ discriminate | contradiction ].
    + unfold F.sgn in E. simpl in E. apply Z.sgn_null_iff in E. lia.
  - eexists. reflexivity.
Qed.

(** Once the candidate's breakpoint is compared with [z[0] = +inf], the
    stack index drops to [-1] and [v[-1]] is read. *)
Lemma pop_loop_underflow (fuel : nat) (src : list float) (a b : float) (q : Z)
    (v : list (option Z)) (z : list (option float)) (s : float) :
  load_cell "z" z 0 = Ok PosInf ->
  F.is_nan s = false ->
  pop_loop (S fuel) src a b q v z 0 s = Err (OutOfBounds "v" (-1)).
Proof.
  intros Hz Hs. simpl. rewrite Hz. simpl.
  rewrite (leb_PosInf s Hs). reflexivity.
Qed.

Lemma new_array_succ {T : Type} (buffer : string) (m : nat) :
  @new_array T buffer (Z.of_nat (S m)) = Ok (None :: repeat None m).
Proof.
  unfold new_array.
  destruct (Z.of_nat (S m) <? 0) eqn:E; [ apply Z.ltb_lt in E; lia | ].
  rewrite Nat2Z.id. reflexivity.
Qed.

Lemma store_head {T : Type} (buffer : string) (c : option T) (p : list (option T)) (x : T) :
  store buffer (c :: p) 0 x = Ok (Some x :: p).
Proof.
  unfold store.
  destruct ((0 <? 0) || (Z.of_nat (length (c :: p)) <=? 0)) eqn:E; [ | reflexivity ].
  apply orb_true_iff in E. destruct E as [E | E].
  - discriminate.
  - apply Z.leb_le in E. simpl length in E. lia.
Qed.

Lemma store_second {T : Type} (buffer : string) (c d : option T) (p : list (option T)) (x : T) :
  store buffer (c :: d :: p) 1 x = Ok (c :: Some x :: p).
Proof.
  unfold store.
  destruct ((1 <? 0) || (Z.of_nat (length (c :: d :: p)) <=? 1)) eqn:E; [ | reflexivity ].
  apply orb_true_iff in E. destruct E as [E | E].
  - discriminate.
  - apply Z.leb_le in E. simpl length in E. lia.
Qed.

(** With a single sample the second pass runs off the end of [z]. *)
Lemma distanceTransform1D_single (src : list float) (a b : float) :
  distanceTransform1D src 1 a b = Err (OutOfBounds "z" 2).
Proof. reflexivity. Qed.

(** With two samples or more the first candidate already pops the stack
    empty. *)
Lemma distanceTransform1D_underflow (x0 x1 : Q) (rest : list float) (n : Z) (qa qb : Q) :
  2 <= n -> F.sgn qa <> 0 ->
  distanceTransform1D (Fin x0 :: Fin x1 :: rest) n (Fin qa) (Fin qb)
  = Err (OutOfBounds "v" (-1)).
Proof.
  intros Hn Ha.
  assert (Hm : exists m : nat, n = Z.of_nat (S (S m))).
  { exists (Z.to_nat (n - 2)). lia. }
  destruct Hm as [m ->].
  unfold distanceTransform1D.
  rewrite new_array_succ. cbn [bind].
  replace (Z.of_nat (S (S m)) + 1) with (Z.of_nat (S (S (S m)))) by lia.
  rewrite new_array_succ. cbn [bind repeat].
  rewrite store_head. cbn [bind].
  rewrite store_head. cbn [bind].
  rewrite store_second. cbn [bind].
  unfold for_loop at 1.
  replace (Z.to_nat (Z.of_nat (S (S m)) - 1)) with (S m) by lia.
  erewrite for_iter_err; [ reflexivity | ].
  unfold envelope_step.
  destruct (intersection_finite (Fin x0 :: Fin x1 :: rest) qa qb 1
              (Some 0 :: None :: repeat None m) 0 0 x1 x0) as [s Hs];
    try reflexivity; try assumption; try lia.
  rewrite Hs. cbn [bind].
  unfold loop_fuel. replace (Z.to_nat (Z.of_nat (S (S m))) + 2)%nat with (S (S (S (S m)))) by lia.
  rewrite pop_loop_underflow; reflexivity.
Qed.

Lemma all_finite_two (xs : list float) :
  all_finite xs -> (2 <= length xs)%nat ->
  exists x0 x1 rest, xs = Fin x0 :: Fin x1 :: rest.
Proof.
  unfold all_finite. intros Hf Hl.
  destruct xs as [ | [ | | x0 | ] [ | [ | | x1 | ] rest ] ];
    simpl in Hf, Hl; try discriminate; try lia.
  exists x0, x1, rest. reflexivity.
Qed.

(** C1: for every finite input of length n >= 1 and every a > 0 the checked
    run of distanceTransform1D ends in an out-of-bounds access (z[2] when
    n = 1, v[-1] otherwise), so no dst and arg are produced at all. *)
Theorem distanceTransform1D_never_returns (src : list float) (qa qb : Q) :
  (1 <= length src)%nat ->
  all_finite src ->
  (0 < qa)%Q ->
  distanceTransform1D src (Z.of_nat (length src)) (Fin qa) (Fin qb)
  = Err (if (length src =? 1)%nat then OutOfBounds "z" 2 else OutOfBounds "v" (-1)).
Proof.
  intros Hl Hf Ha.
  destruct (length src =? 1)%nat eqn:E.
  - apply Nat.eqb_eq in E. rewrite E. apply distanceTransform1D_single.
  - apply Nat.eqb_neq in E.
    destruct (all_finite_two src Hf) as (x0 & x1 & rest & ->); [ lia | ].
    apply distanceTransform1D_underflow.
    + simpl length. lia.
    + rewrite (sgn_pos qa Ha). discriminate.
Qed.

Lemma distanceTransform1D_never_returns_witness :
  (0 < 1)%Q /\
  distanceTransform1D [Fin 0; Fin 5; Fin 1] 3 (Fin 1) (Fin 0)
  = Err (OutOfBounds "v" (-1)).
Proof.
  split; [ reflexivity | ].
  apply (distanceTransform1D_never_returns [Fin 0; Fin 5; Fin 1] 1 0);
    [ simpl; lia | reflexivity | reflexivity ].
Defined.

(** C2: for every finite input of length n >= 2 and every a > 0 the pop
    loop drives the stack index to -1 and then reads v[-1]: the
    out-of-bounds branch is the one the run takes. *)
Theorem pop_loop_reads_below_the_stack (src : list float) (n : Z) (qa qb : Q) :
  n = Z.of_nat (length src) ->
  2 <= n ->
  all_finite src ->
  (0 < qa)%Q ->
  distanceTransform1D src n (Fin qa) (Fin qb) = Err (OutOfBounds "v" (-1)).
Proof.
  intros Hn Hl Hf Ha.
  destruct (all_finite_two src Hf) as (x0 & x1 & rest & ->); [ lia | ].
  apply distanceTransform1D_underflow; [ assumption | ].
  rewrite (sgn_pos qa Ha). discriminate.
Qed.

Lemma pop_loop_reads_below_the_stack_witness :
  (0 < 1)%Q /\
  distanceTransform1D [Fin 0; Fin 0] 2 (Fin 1) (Fin 0) = Err (OutOfBounds "v" (-1)).
Proof.
  split; [ reflexivity | ].
  apply (pop_loop_reads_below_the_stack [Fin 0; Fin 0] 2 1 0);
    [ reflexivity | lia | reflexivity | reflexivity ].
Defined.

(** ** The 2D transform inherits the failure *)

Lemma range_cons (lo hi : Z) : lo < hi -> range lo hi = lo :: range (lo + 1) hi.
Proof.
  intros H. unfold range.
  replace (Z.to_nat (hi - lo)) with (S (Z.to_nat (hi - (lo + 1)))) by lia.
  rewrite <- cons_seq, <- seq_shift. simpl. rewrite map_map. f_equal.
  - lia.
  - apply map_ext. intros i. lia.
Qed.

Lemma ptr_first_row_two (m : Mat float) :
  well_formed m -> all_finite (data m) -> 1 <= rows m -> 2 <= cols m ->
  exists x0 x1 rest, ptr m 0 = Fin x0 :: Fin x1 :: rest.
Proof.
  intros (Hr & Hc & Hlen) Hf Hrows Hcols.
  destruct (all_finite_two (data m) Hf) as (x0 & x1 & rest & Hd); [ nia | ].
  unfold ptr. rewrite Hd. simpl skipn.
  destruct (isContinuous m).
  - exists x0, x1, rest. reflexivity.
  - replace (Z.to_nat (cols m)) with (S (S (Z.to_nat (cols m - 2)))) by lia.
    simpl. eexists _, _, _. reflexivity.
Qed.

(** C3: for every well-formed finite plane with at least one cell and every
    weight vector in the valid regime the checked run of the 2D transform
    fails in its first row transform, so it returns no scoreOut, Ix and Iy
    whose consistency could be read off. *)
Theorem distanceTransform_never_returns (score_in : Mat float) (ax bx ay by_ : Q) :
  well_formed score_in ->
  all_finite (data score_in) ->
  1 <= rows score_in ->
  1 <= cols score_in ->
  (ax < 0)%Q ->
  distanceTransform score_in [Fin ax; Fin bx; Fin ay; Fin by_]
  = Err (if cols score_in =? 1 then OutOfBounds "z" 2 else OutOfBounds "v" (-1)).
Proof.
  intros Hwf Hf Hrows Hcols Ha.
  unfold distanceTransform, distanceTransform_with.
  change (load "w" [Fin ax; Fin bx; Fin ay; Fin by_] 0) with (Ok (Fin ax)).
  change (load "w" [Fin ax; Fin bx; Fin ay; Fin by_] 1) with (Ok (Fin bx)).
  change (load "w" [Fin ax; Fin bx; Fin ay; Fin by_] 2) with (Ok (Fin ay)).
  change (load "w" [Fin ax; Fin bx; Fin ay; Fin by_] 3) with (Ok (Fin by_)).
  cbn [bind F.neg].
  rewrite (range_cons 0 (rows score_in)) by lia.
  apply bind_err. apply mapM_head_err.
  destruct (cols score_in =? 1) eqn:E.
  - apply Z.eqb_eq in E. rewrite E. apply distanceTransform1D_single.
  - apply Z.eqb_neq in E.
    destruct (ptr_first_row_two score_in Hwf Hf) as (x0 & x1 & rest & ->); try lia.
    apply distanceTransform1D_underflow; [ lia | ].
    unfold F.sgn, Qlt in *. simpl in *. intros H. apply Z.sgn_null_iff in H. lia.
Qed.

Lemma distanceTransform_never_returns_witness :
  (-1 < 0)%Q /\
  distanceTransform (mkMat 2 2 true [Fin 0; Fin 100; Fin 100; Fin 100])
                    [Fin (-1); Fin 0; Fin (-1); Fin 0]
  = Err (OutOfBounds "v" (-1)).
Proof.
  split; [ reflexivity | ].
  apply (distanceTransform_never_returns
           (mkMat 2 2 true [Fin 0; Fin 100; Fin 100; Fin 100]) (-1) 0 (-1) 0);
    [ repeat split; simpl; lia | reflexivity | simpl; lia | simpl; lia | reflexivity ].
Defined.

(** ** [reduceMax] records the cell position, not the plane *)

Lemma range_In (lo hi x : Z) : In x (range lo hi) <-> lo <= x < hi.
Proof.
  unfold range. rewrite in_map_iff. split.
  - intros (i & <- & Hi). apply in_seq in Hi. lia.
  - intros H. exists (Z.to_nat (x - lo)). split; [ lia | ].
    apply in_seq. lia.
Qed.

Lemma mapM_ok {A B : Type} (f : A -> result B) (g : A -> B) (l : list A) :
  (forall x, In x l -> f x = Ok (g x)) -> mapM f l = Ok (map g l).
Proof.
  induction l as [ | x l IH ]; intros H; simpl.
  - reflexivity.
  - rewrite (H x) by (left; reflexivity). simpl.
    rewrite IH by (intros y Hy; apply H; right; exact Hy). reflexivity.
Qed.

Lemma load_nth {T : Type} (buffer : string) (p : list T) (i : Z) (x : T) :
  0 <= i -> nth_error p (Z.to_nat i) = Some x -> load buffer p i = Ok x.
Proof.
  intros Hi Hn. unfold load.
  destruct (i <? 0) eqn:E; [ apply Z.ltb_lt in E; lia | ].
  rewrite Hn. reflexivity.
Qed.

Lemma load_Forall {T : Type} (P : T -> Prop) (buffer : string) (p : list T) (i : Z) :
  Forall P p -> 0 <= i < Z.of_nat (length p) ->
  exists x, load buffer p i = Ok x /\ P x.
Proof.
  intros HP Hi.
  destruct (nth_error p (Z.to_nat i)) as [ x | ] eqn:E.
  - exists x. split; [ apply load_nth; [ lia | exact E ] | ].
    rewrite Forall_forall in HP. apply HP. eapply nth_error_In. exact E.
  - apply nth_error_None in E. lia.
Qed.

Lemma all_finite_nth (xs : list float) (i : nat) :
  all_finite xs -> (i < length xs)%nat -> exists x, nth_error xs i = Some (Fin x).
Proof.
  unfold all_finite. intros Hf Hi.
  destruct (nth_error xs i) as [ y | ] eqn:E.
  - rewrite forallb_forall in Hf. specialize (Hf y (nth_error_In _ _ E)).
    destruct y; try discriminate. eexists. reflexivity.
  - apply nth_error_None in E. lia.
Qed.

Lemma value_at_load (in_ptr : list (list float)) (n : Z) (k : nat) :
  0 <= n -> finite_column in_ptr n -> (k < length in_ptr)%nat ->
  exists p x, load "in_ptr" in_ptr (Z.of_nat k) = Ok p /\
              load "in_ptr[k]" p n = Ok (Fin x) /\
              value_at in_ptr n k (Fin x).
Proof.
  intros Hn Hcol Hk.
  destruct (nth_error in_ptr k) as [ p | ] eqn:E;
    [ | apply nth_error_None in E; lia ].
  unfold finite_column in Hcol. rewrite Forall_forall in Hcol.
  destruct (Hcol p (nth_error_In _ _ E)) as [x Hx].
  exists p, x. repeat split.
  - apply load_nth; [ lia | rewrite Nat2Z.id; exact E ].
  - apply load_nth; assumption.
  - exists p. split; assumption.
Qed.

Lemma value_at_fun (in_ptr : list (list float)) (n : Z) (j : nat) (x y : float) :
  value_at in_ptr n j x -> value_at in_ptr n j y -> x = y.
Proof.
  intros (p & Hp & Hx) (p' & Hp' & Hy). congruence.
Qed.

Lemma leb_trans_fin (x : float) (q q' : Q) :
  (x <=? Fin q)%F = true -> (q <= q')%Q -> (x <=? Fin q')%F = true.
Proof.
  destruct x as [ | | p | ]; simpl; try congruence.
  intros H Hq. apply Qle_bool_iff. apply Qle_bool_iff in H.
  eapply Qle_trans; eassumption.
Qed.

(** Once the incumbent is finite and the index is [n], the index stays
    and the incumbent stays the maximum of the planes seen. *)
Lemma scan_keeps_position (in_ptr : list (list float)) (n : Z) (count : nat) :
  0 <= n -> finite_column in_ptr n ->
  forall (k : nat) (q : Q),
    (k + count <= length in_ptr)%nat ->
    max_of_prefix in_ptr n k (Fin q) ->
    exists q', for_iter count (Z.of_nat k) (max_step in_ptr n) (n, Fin q) = Ok (n, Fin q')
               /\ max_of_prefix in_ptr n (k + count) (Fin q').
Proof.
  intros Hn Hcol. induction count as [ | count IH ]; intros k q Hlen Hinv.
  - exists q. rewrite Nat.add_0_r. split; [ reflexivity | exact Hinv ].
  - cbn [for_iter]. unfold max_step at 1.
    destruct (value_at_load in_ptr n k Hn Hcol) as (p & x & Hp & Hx & Hval); [ lia | ].
    rewrite Hp. cbn [bind]. rewrite Hx. cbn [bind].
    replace (Z.of_nat k + 1) with (Z.of_nat (S k)) by lia.
    replace (k + S count)%nat with (S k + count)%nat by lia.
    destruct Hinv as [(j0 & Hj0 & Hv0) Hub].
    destruct (Fin x >? Fin q)%F eqn:E; cbn [bind]; apply IH; try lia.
    + assert (Hlt : (q <= x)%Q).
      { unfold F.gtb, F.ltb in E. apply negb_true_iff in E.
        destruct (Qlt_le_dec q x) as [H | H]; [ apply Qlt_le_weak; exact H | ].
        apply Qle_bool_iff in H. congruence. }
      split.
      * exists k. split; [ lia | exact Hval ].
      * intros j y Hj Hy. destruct (Nat.eq_dec j k) as [-> | Hne].
        -- rewrite (value_at_fun _ _ _ _ _ Hy Hval). simpl.
           apply Qle_bool_iff. apply Qle_refl.
        -- apply (leb_trans_fin y q x); [ apply (Hub j); [ lia | exact Hy ] | exact Hlt ].
    + split.
      * exists j0. split; [ lia | exact Hv0 ].
      * intros j y Hj Hy. destruct (Nat.eq_dec j k) as [-> | Hne].
        -- rewrite (value_at_fun _ _ _ _ _ Hy Hval).
           unfold F.gtb, F.ltb in E. apply negb_false_iff in E. exact E.
        -- apply (Hub j); [ lia | exact Hy ].
Qed.

(** The scan of one cell: the first plane beats [-inf] and writes [n]; the
    value that comes out is the maximum over the planes. *)
Lemma scan_cell (in_ptr : list (list float)) (n : Z) :
  0 <= n -> finite_column in_ptr n -> (1 <= length in_ptr)%nat ->
  exists v, for_loop 0 (Z.of_nat (length in_ptr)) (max_step in_ptr n) (0, NegInf)
            = Ok (n, v)
            /\ max_of_prefix in_ptr n (length in_ptr) v.
Proof.
  intros Hn Hcol Hlen. unfold for_loop.
  replace (Z.to_nat (Z.of_nat (length in_ptr) - 0)) with (S (length in_ptr - 1)) by lia.
  cbn [for_iter]. unfold max_step at 1.
  destruct (value_at_load in_ptr n 0 Hn Hcol) as (p & x & Hp & Hx & Hval); [ lia | ].
  change (Z.of_nat 0) with 0 in Hp.
  rewrite Hp. cbn [bind]. rewrite Hx. cbn [bind].
  change (Fin x >? NegInf)%F with true. cbn [bind].
  destruct (scan_keeps_position in_ptr n (length in_ptr - 1) Hn Hcol 1 x)
    as (q' & Hq' & Hmax); [ lia | | ].
  - split.
    + exists 0%nat. split; [ lia | exact Hval ].
    + intros j y Hj Hy. assert (j = 0%nat) as -> by lia.
      rewrite (value_at_fun _ _ _ _ _ Hy Hval). simpl.
      apply Qle_bool_iff. apply Qle_refl.
  - exists (Fin q'). split; [ exact Hq' | ].
    replace (1 + (length in_ptr - 1))%nat with (length in_ptr) in Hmax by lia.
    exact Hmax.
Qed.

Lemma dense_finite_column (inp : list (Mat float)) (r c n : Z) :
  Forall (dense_finite r c) inp -> 0 <= n < r * c ->
  finite_column (map (fun ink => ptr ink 0) inp) n.
Proof.
  intros Hinp Hn. unfold finite_column. rewrite Forall_map.
  eapply Forall_impl; [ | exact Hinp ].
  intros p (Hr & Hc & Hcont & Hlen & Hfin).
  unfold ptr. rewrite Hcont. simpl skipn.
  apply all_finite_nth; [ exact Hfin | lia ].
Qed.

Lemma size_checks_pass (inp : list (Mat float)) (r c : Z) :
  Forall (dense_finite r c) inp ->
  mapM (fun k =>
          ink <- load "in" inp k ;;
          ink1 <- load "in" inp (k - 1) ;;
          assert (size_eqb (size ink) (size ink1)) "in[k].size() == in[k-1].size()")
       (range 1 (Z.of_nat (length inp)))
  = Ok (map (fun _ => tt) (range 1 (Z.of_nat (length inp)))).
Proof.
  intros Hinp. apply mapM_ok. intros k Hk. apply range_In in Hk.
  destruct (load_Forall _ "in" inp k Hinp) as (p & -> & (Hr & Hc & _)); [ lia | ].
  destruct (load_Forall _ "in" inp (k - 1) Hinp) as (p' & -> & (Hr' & Hc' & _)); [ lia | ].
  cbn [bind]. unfold size, size_eqb. cbn [fst snd].
  rewrite Hr, Hc, Hr', Hc', !Z.eqb_refl. reflexivity.
Qed.

Lemma mapM_Forall2 {A B : Type} (P : A -> B -> Prop) (f : A -> result B) (l : list A) :
  (forall x, In x l -> exists y, f x = Ok y /\ P x y) ->
  exists ys, mapM f l = Ok ys /\ Forall2 P l ys.
Proof.
  induction l as [ | x l IH ]; intros H; simpl.
  - exists []. split; [ reflexivity | constructor ].
  - destruct (H x) as (y & Hy & HP); [ left; reflexivity | ].
    destruct IH as (ys & Hys & HF); [ intros z Hz; apply H; right; exact Hz | ].
    rewrite Hy, Hys. simpl. exists (y :: ys). split; [ reflexivity | ].
    constructor; assumption.
Qed.

Lemma Forall2_keys {A B : Type} (P : A -> B -> Prop) (l : list A) (ys : list (A * B)) :
  Forall2 (fun x y => fst y = x /\ P x (snd y)) l ys ->
  map fst ys = l /\ Forall2 P l (map snd ys).
Proof.
  induction 1 as [ | x y l ys (Hk & HP) _ (IHk & IHP) ]; simpl.
  - split; [ reflexivity | constructor ].
  - split; [ congruence | constructor; assumption ].
Qed.

(** What [reduceMax] returns on such a stack: the value plane holds the
    maximum of every cell, and the index plane counts the cells, whatever
    the scores are. *)
Lemma reduceMax_planes (inp : list (Mat float)) (r c : Z) :
  (2 <= length inp)%nat -> 0 <= r -> 0 <= c ->
  Forall (dense_finite r c) inp ->
  exists vs,
    reduceMax inp = Ok (mkMat r c true vs, mkMat r c true (range 0 (r * c)))
    /\ Forall2 (fun n v => max_of_prefix (map (fun ink => ptr ink 0) inp) n (length inp) v)
               (range 0 (r * c)) vs.
Proof.
  intros HK Hr Hc Hinp. unfold reduceMax.
  replace (Z.of_nat (length inp) >? 1) with true by (symmetry; apply Z.gtb_lt; lia).
  cbn [assert bind]. rewrite (size_checks_pass inp r c Hinp). cbn [bind].
  destruct (load_Forall _ "in" inp 0 Hinp) as (in0 & -> & (Hr0 & Hc0 & Hcont & _)); [ lia | ].
  cbn [bind]. rewrite Hcont, Hr0, Hc0.
  change (range 0 1) with [0]. cbn [mapM].
  destruct (mapM_Forall2
              (fun n y => fst y = n /\
                 max_of_prefix (map (fun ink => ptr ink 0) inp) n (length inp) (snd y))
              (fun n => for_loop 0 (Z.of_nat (length inp))
                          (max_step (map (fun ink => ptr ink 0) inp) n) (0, NegInf))
              (range 0 (r * c))) as (ys & Hys & HF).
  { intros n Hn. apply range_In in Hn.
    pose proof (scan_cell (map (fun ink => ptr ink 0) inp) n) as H.
    rewrite length_map in H.
    destruct H as (v & Hv & Hmax); [ lia | | lia | ].
    - apply (dense_finite_column inp r c); assumption.
    - exists (n, v). split; [ exact Hv | split; [ reflexivity | exact Hmax ] ]. }
  apply (Forall2_keys
           (fun n v => max_of_prefix (map (fun ink => ptr ink 0) inp) n (length inp) v))
    in HF.
  destruct HF as [Hfst Hsnd].
  rewrite Hys. cbn [bind map]. exists (map snd ys). split; [ | exact Hsnd ].
  unfold created, size. cbn [fst snd concat]. rewrite Hr0, Hc0, Hfst, !app_nil_r.
  reflexivity.
Qed.

Lemma Forall2_lookup {A B : Type} (P : A -> B -> Prop) (l : list A) (ys : list B) :
  Forall2 P l ys ->
  forall i x, nth_error l i = Some x -> exists y, nth_error ys i = Some y /\ P x y.
Proof.
  induction 1 as [ | x0 y0 l ys HP _ IH ]; intros i x Hi.
  - destruct i; discriminate.
  - destruct i as [ | i ]; simpl in *.
    + injection Hi as <-. exists y0. split; [ reflexivity | exact HP ].
    + apply IH. exact Hi.
Qed.

Lemma range_lookup (n hi : Z) :
  0 <= n < hi -> nth_error (range 0 hi) (Z.to_nat n) = Some n.
Proof.
  intros H. unfold range. rewrite nth_error_map, nth_error_seq.
  destruct (Nat.ltb_spec (Z.to_nat n) (Z.to_nat (hi - 0))); [ | lia ].
  simpl. f_equal. lia.
Qed.

Lemma dense_value_at (inp : list (Mat float)) (r c n : Z) (j : nat) (x : float) :
  Forall (dense_finite r c) inp ->
  value_at (map (fun ink => ptr ink 0) inp) n j x <->
  exists p, nth_error inp j = Some p /\ nth_error (data p) (Z.to_nat n) = Some x.
Proof.
  intros Hinp. unfold value_at. rewrite nth_error_map. split.
  - intros (row & Hrow & Hx).
    destruct (nth_error inp j) as [ p | ] eqn:E; [ | discriminate ].
    simpl in Hrow. injection Hrow as <-. exists p. split; [ reflexivity | ].
    rewrite Forall_forall in Hinp.
    destruct (Hinp p (nth_error_In _ _ E)) as (_ & _ & Hcont & _).
    unfold ptr in Hx. rewrite Hcont in Hx. exact Hx.
  - intros (p & Hp & Hx). rewrite Hp. simpl. eexists. split; [ reflexivity | ].
    rewrite Forall_forall in Hinp.
    destruct (Hinp p (nth_error_In _ _ Hp)) as (_ & _ & Hcont & _).
    unfold ptr. rewrite Hcont. exact Hx.
Qed.

(** C4: on every stack of K >= 2 dense finite planes of one shape,
    reduceMax succeeds; maxVal holds in every cell a value of some plane
    that no plane exceeds, but maxIdx holds the cell's own position
    0, 1, ..., rows*cols-1 and not the index of a plane. *)
Theorem reduceMax_value_right_index_wrong (inp : list (Mat float)) (r c : Z) :
  (2 <= length inp)%nat -> 0 <= r -> 0 <= c ->
  Forall (dense_finite r c) inp ->
  exists maxVal,
    reduceMax inp = Ok (maxVal, mkMat r c true (range 0 (r * c)))
    /\ rows maxVal = r /\ cols maxVal = c
    /\ forall n, 0 <= n < r * c ->
         exists v, nth_error (data maxVal) (Z.to_nat n) = Some v
           /\ (exists k p, nth_error inp k = Some p
                           /\ nth_error (data p) (Z.to_nat n) = Some v)
           /\ (forall k p x, nth_error inp k = Some p ->
                             nth_error (data p) (Z.to_nat n) = Some x ->
                             (x <=? v)%F = true).
Proof.
  intros HK Hr Hc Hinp.
  destruct (reduceMax_planes inp r c HK Hr Hc Hinp) as (vs & Hred & HF).
  exists (mkMat r c true vs). repeat split; try exact Hred.
  intros n Hn.
  destruct (Forall2_lookup _ _ _ HF (Z.to_nat n) n (range_lookup n _ Hn))
    as (v & Hv & (j & Hj & Hat) & Hub).
  exists v. split; [ exact Hv | split ].
  - apply (dense_value_at inp r c n j v Hinp) in Hat.
    destruct Hat as (p & Hp & Hx). exists j, p. split; assumption.
  - intros k p x Hp Hx. apply (Hub k).
    + apply nth_error_Some. congruence.
    + apply (dense_value_at inp r c n k x Hinp). exists p. split; assumption.
Qed.

Lemma plane_dense_finite (r c : Z) (xs : list Z) :
  Z.of_nat (length xs) = r * c -> dense_finite r c (plane r c xs).
Proof.
  intros H. unfold dense_finite, plane. cbn [rows cols isContinuous data].
  rewrite length_map. repeat split; try assumption.
  unfold all_finite. rewrite forallb_forall. intros x Hx.
  apply in_map_iff in Hx. destruct Hx as (i & <- & _). reflexivity.
Qed.

Lemma reduceMax_value_right_index_wrong_witness :
  exists maxVal,
    reduceMax [plane 1 3 [0; 1; 5]; plane 1 3 [0; 0; 7]]
    = Ok (maxVal, mkMat 1 3 true [0; 1; 2])
    /\ rows maxVal = 1 /\ cols maxVal = 3
    /\ forall n, 0 <= n < 1 * 3 ->
         exists v, nth_error (data maxVal) (Z.to_nat n) = Some v
           /\ (exists k p, nth_error [plane 1 3 [0; 1; 5]; plane 1 3 [0; 0; 7]] k = Some p
                           /\ nth_error (data p) (Z.to_nat n) = Some v)
           /\ (forall k p x,
                 nth_error [plane 1 3 [0; 1; 5]; plane 1 3 [0; 0; 7]] k = Some p ->
                 nth_error (data p) (Z.to_nat n) = Some x ->
                 (x <=? v)%F = true).
Proof.
  apply (reduceMax_value_right_index_wrong
           [plane 1 3 [0; 1; 5]; plane 1 3 [0; 0; 7]] 1 3);
    [ simpl; lia | lia | lia | ].
  repeat constructor; apply plane_dense_finite; reflexivity.
Defined.

(** ** The round trip through [reducePickIndex] *)

Lemma fold_left_max_init (xs : list Z) (x : Z) : x <= fold_left Z.max xs x.
Proof.
  revert x. induction xs as [ | z xs IH ]; intros x; simpl.
  - lia.
  - specialize (IH (Z.max x z)). lia.
Qed.

Lemma fold_left_max_ge (xs : list Z) (x y : Z) :
  In y (x :: xs) -> y <= fold_left Z.max xs x.
Proof.
  revert x. induction xs as [ | z xs IH ]; intros x Hy; simpl.
  - destruct Hy as [ <- | [] ]. lia.
  - pose proof (fold_left_max_init xs (Z.max x z)) as Hinit.
    destruct Hy as [ <- | [ <- | Hy ] ]; [ lia | lia | ].
    apply IH. right. exact Hy.
Qed.

Lemma minMaxLoc_positions (r c : Z) :
  0 < r * c -> r * c - 1 <= snd (minMaxLoc (mkMat r c true (range 0 (r * c)))).
Proof.
  intros H. unfold minMaxLoc. cbn [data].
  rewrite (range_cons 0 (r * c)) by lia. cbn [snd].
  apply fold_left_max_ge. rewrite <- (range_cons 0 (r * c)) by lia.
  apply range_In. lia.
Qed.

(** C5: on every stack of K >= 2 dense finite planes with more than K
    cells, reduceMax succeeds and reducePickIndex then rejects its index
    plane: the precondition check on the indices fails, and no plane comes
    back that could equal maxVal. *)
Theorem pick_after_max_is_rejected (planes : list (Mat float)) (r c : Z) :
  (2 <= length planes)%nat -> 0 <= r -> 0 <= c ->
  Forall (dense_finite r c) planes ->
  Z.of_nat (length planes) < r * c ->
  pick_after_max planes = Err (AssertionFailed "minv >= 0 && maxv < K").
Proof.
  intros HK Hr Hc Hinp Hcells. unfold pick_after_max.
  destruct (reduceMax_planes planes r c HK Hr Hc Hinp) as (vs & -> & _).
  cbn [bind]. unfold reducePickIndex.
  pose proof (minMaxLoc_positions r c ltac:(lia)) as Hmax.
  destruct (minMaxLoc (mkMat r c true (range 0 (r * c)))) as [minv maxv].
  cbn [snd] in Hmax.
  replace (maxv <? Z.of_nat (length planes)) with false
    by (symmetry; apply Z.ltb_ge; lia).
  rewrite andb_false_r. reflexivity.
Qed.

Lemma pick_after_max_is_rejected_witness :
  pick_after_max [plane 1 3 [0; 1; 5]; plane 1 3 [0; 0; 7]]
  = Err (AssertionFailed "minv >= 0 && maxv < K").
Proof.
  apply (pick_after_max_is_rejected [plane 1 3 [0; 1; 5]; plane 1 3 [0; 0; 7]] 1 3);
    [ simpl; lia | lia | lia | | simpl; lia ].
  repeat constructor; apply plane_dense_finite; reflexivity.
Defined.

(** Where the index check passes, the cells picked are those of plane [n]
    at cell [n]: here the maximum 7 of cell 1 is in plane 0, and plane 1 is
    read. *)
Lemma pick_after_max_small :
  pick_after_max [plane 1 2 [0; 7]; plane 1 2 [0; 0]]
  = Ok (plane 1 2 [0; 7], plane 1 2 [0; 0]).
Proof. reflexivity. Qed.

(** ** A single plane *)

(** C6 as stated fails: a singleton stack is turned down. *)
Lemma reduceMax_singleton_counterexample :
  reduceMax [plane 1 2 [0; 1]] = Err (AssertionFailed "K > 1").
Proof. reflexivity. Qed.

(** C6 (amended): reduceMax applied to a singleton stack (K = 1) fails its
    K > 1 precondition check, whatever the plane is; it returns neither a
    value plane nor an index plane. *)
Theorem reduceMax_singleton_rejected (p : Mat float) :
  reduceMax [p] = Err (AssertionFailed "K > 1").
Proof. reflexivity. Qed.

(** ** Mixing the mixtures *)

(** C7: the second loop of minRecursive never reads the shifted planes:
    whatever scoresi holds, the same planes are stacked, and the slot
    written and the planes recorded are the same.  They are scores[0..]
    with the bias added, the raw planes at the head of the global vector:
    with raw planes 1, 2 (parent) and 10, 20 (node) and shifted planes 100,
    200, the parent slot receives 2.  Run from its entry on these raw
    planes, minRecursive does not reach the second loop: the first row
    transform reads z[2]. *)
Theorem mix_step_ignores_shifted_planes :
  (forall (self : Part) (Np m : Z) (st : mixing) (shifted : list (Mat float)),
     mix_step self Np m (with_scoresi st shifted)
     = (st' <- mix_step self Np m st ;; Ok (with_scoresi st' shifted)))
  /\ mix_step (two_mixtures 1 []) 0 0
       (mkMixing [plane 1 1 [100]; plane 1 1 [200]]
                 [mkMat 1 1 true [0]; mkMat 1 1 true [0]]
                 [mkMat 1 1 true [0]; mkMat 1 1 true [0]]
                 [] [] []
                 [plane 1 1 [1]; plane 1 1 [2]; plane 1 1 [10]; plane 1 1 [20]])
     = Ok (mkMixing [plane 1 1 [100]; plane 1 1 [200]]
                    [mkMat 1 1 true [0]; mkMat 1 1 true [0]]
                    [mkMat 1 1 true [0]; mkMat 1 1 true [0]]
                    [mkMat 1 1 true [0]] [mkMat 1 1 true [0]] [mkMat 1 1 true [0]]
                    [plane 1 1 [2]; plane 1 1 [2]; plane 1 1 [10]; plane 1 1 [20]])
  /\ minRecursive (two_mixtures 1 []) (two_mixtures 0 [two_mixtures 1 []])
       [plane 1 1 [1]; plane 1 1 [2]; plane 1 1 [10]; plane 1 1 [20]] 2 0
     = Err (OutOfBounds "z" 2).
Proof.
  split; [ | split; reflexivity ].
  - intros self Np m st shifted. unfold mix_step, with_scoresi.
    cbn [scoresi Ixi Iyi Ix Iy Ik scores].
    destruct (load "bias" (bias self) m) as [ bias_m | e ]; [ | reflexivity ].
    cbn [bind].
    destruct (mapM _ (range 0 (nmixtures self))) as [ weighted | e ]; [ | reflexivity ].
    cbn [bind].
    destruct (reduceMax weighted) as [ [maxv maxi] | e ]; [ | reflexivity ].
    cbn [bind].
    destruct (reducePickIndex (Ixi st) maxi) as [ Ixm | e ]; [ | reflexivity ].
    cbn [bind].
    destruct (reducePickIndex (Iyi st) maxi) as [ Iym | e ]; [ | reflexivity ].
    cbn [bind].
    destruct (assign "scores" (scores st) (Np + m) maxv) as [ scores' | e ];
      reflexivity.
Qed.

(** ** The anchor shift and the two-node scenario *)

(** X13: the shift copies nothing: whenever it returns, whatever the
    transform delivered, the shifted score is -inf in every cell and the
    shifted argmin planes are 0 in every cell. *)
Lemma shift_by_anchor_blank (self : Part) (score_in score_dt : Mat float)
    (Ix_dt Iy_dt : Mat Z) (shifted : Mat float * Mat Z * Mat Z) :
  shift_by_anchor self score_in score_dt Ix_dt Iy_dt = Ok shifted ->
  shifted = (filled (size score_dt) NegInf, filled (size Ix_dt) 0, filled (size Iy_dt) 0).
Proof.
  unfold shift_by_anchor, assign_roi. destruct (anchor self) as [anchor_x anchor_y].
  change (NegInf * fin_one)%F with NegInf.
  repeat match goal with
         | |- context [roi ?m ?r ?c] => destruct (roi m r c) as [ [] | ]; cbn [bind]
         end; congruence.
Qed.

(** C8: in the two-node scenario (one mixture, zero bias, anchor (1,0),
    unit weights, leaf response 10 at (2,3)) the message of the leaf is
    never computed: minRecursive stops at v[-1] in the first row transform,
    and min returns the responses as they were, so the root's plane has no
    peak at (1,3).  The shift itself, given any transformed 5 x 5 planes,
    leaves -inf in every cell, inside the overlap as well as outside. *)
Theorem anchor_shift_scenario_fails :
  minRecursive scenario_leaf scenario_root [flat5; peak5] 2 0
  = Err (OutOfBounds "v" (-1))
  /\ min scenario_root [flat5; peak5] 1 = Ok [flat5; peak5]
  /\ forall (dt : list float) (ix iy : list Z),
       shift_by_anchor scenario_leaf peak5
         (mkMat 5 5 true dt) (mkMat 5 5 true ix) (mkMat 5 5 true iy)
       = Ok (filled (5, 5) NegInf, filled (5, 5) 0, filled (5, 5) 0).
Proof.
  split; [ reflexivity | split; [ reflexivity | ] ].
  intros dt ix iy. reflexivity.
Qed.

(** ** The response count that [min] checks *)

(** [min] goes through exactly when the count equals
    [ndescendants + nmixtures * nscales] and there is a first plane. *)
Lemma min_passes (rootpart : Part) (responses : list (Mat float)) (nscales : Z) :
  is_ok (min rootpart responses nscales)
  = (Z.of_nat (length responses)
     =? to_size_t (ndescendants rootpart + 1 * nmixtures rootpart * nscales))
    && negb (Z.of_nat (length responses) =? 0).
Proof.
  unfold min.
  destruct (Z.of_nat (length responses) =? _); [ | reflexivity ].
  cbn [assert bind andb]. rewrite Z.mul_0_r.
  destruct responses; reflexivity.
Qed.

(** X1: whenever min returns, the responses are as they were passed in:
    the body ends after it has read the shape of the first plane, and no
    message is passed. *)
Lemma min_returns_responses (rootpart : Part) (responses out : list (Mat float))
    (nscales : Z) :
  min rootpart responses nscales = Ok out -> out = responses.
Proof.
  unfold min. destruct (assert _ _); cbn [bind]; [ | discriminate ].
  destruct (load _ _ _); cbn [bind]; congruence.
Qed.

Lemma min_returns_responses_witness :
  min scenario_root [flat5; peak5] 1 = Ok [flat5; peak5]
  /\ [flat5; peak5] = [flat5; peak5].
Proof.
  split; [ reflexivity | ].
  apply (min_returns_responses scenario_root [flat5; peak5] [flat5; peak5] 1).
  reflexivity.
Defined.

(** C9: min goes through exactly when the number of planes equals
    ndescendants + nmixtures * nscales (and there is a first plane), which
    is not (ndescendants+1) * nmixtures * nscales: a tree of two parts with
    two mixtures at one scale needs (1+1)*2*1 = 4 planes, and min turns
    exactly that count down and lets 1 + 2*1 = 3 planes through. *)
Theorem min_checks_the_wrong_count :
  (forall (rootpart : Part) (responses : list (Mat float)) (nscales : Z),
     is_ok (min rootpart responses nscales)
     = (Z.of_nat (length responses)
        =? to_size_t (ndescendants rootpart + nmixtures rootpart * nscales))
       && negb (Z.of_nat (length responses) =? 0))
  /\ min (two_mixtures 0 [two_mixtures 1 []])
       [plane 1 1 [1]; plane 1 1 [2]; plane 1 1 [10]; plane 1 1 [20]] 1
     = Err (AssertionFailed
              "responses.size() == (rootpart.ndescendants()+1 * rootpart.nmixtures() * nscales)")
  /\ min (two_mixtures 0 [two_mixtures 1 []])
       [plane 1 1 [1]; plane 1 1 [2]; plane 1 1 [10]] 1
     = Ok [plane 1 1 [1]; plane 1 1 [2]; plane 1 1 [10]].
Proof.
  split; [ | split; reflexivity ].
  intros rootpart responses nscales. rewrite min_passes.
  rewrite Z.mul_1_l. reflexivity.
Qed.

(** ** The detector *)

Section DetectorFacts.

Variables Candidate Image Level : Type.
Variable features_pyramid : Image -> list Level.
Variable features_pdf : list Level -> list Level -> list (Mat float).
Variable features_nscales : Z.
Variable root_ : Part.

Let detect' := detect Candidate Image Level features_pyramid features_pdf
                      features_nscales root_.

(** whatever [detect] returns is the empty vector *)
Lemma detect_reports_no_candidate (im : Image) (cs : list Candidate) :
  detect' im = Ok cs -> cs = [].
Proof.
  unfold detect', detect. destruct (min _ _ _); cbn [bind]; congruence.
Qed.

End DetectorFacts.

(** C10 as stated fails: where the provider delivers no plane, the check
    in min stops detect before anything is returned. *)
Lemma detect_counterexample :
  detect unit unit unit (fun _ => []) (fun _ _ => []) 1 scenario_root tt
  = Err (AssertionFailed
           "responses.size() == (rootpart.ndescendants()+1 * rootpart.nmixtures() * nscales)").
Proof. reflexivity. Qed.

(** C10 (amended): for every input image on which dp_.min goes through,
    detect returns the empty Candidate vector: what argmin delivered is
    dropped and a fresh empty vector is returned.  When dp_.min fails,
    detect fails with it and returns nothing.  In no case is a detection
    reported. *)
Theorem detect_returns_empty (Candidate Image Level : Type)
    (features_pyramid : Image -> list Level)
    (features_pdf : list Level -> list Level -> list (Mat float))
    (features_nscales : Z) (root_ : Part) (im : Image) :
  (is_ok (min root_ (features_pdf (features_pyramid im) []) features_nscales) = true ->
   detect Candidate Image Level features_pyramid features_pdf features_nscales root_ im
   = Ok [])
  /\ (forall e,
        min root_ (features_pdf (features_pyramid im) []) features_nscales = Err e ->
        detect Candidate Image Level features_pyramid features_pdf features_nscales
          root_ im
        = Err e)
  /\ (forall cs,
        detect Candidate Image Level features_pyramid features_pdf features_nscales
          root_ im
        = Ok cs ->
        cs = []).
Proof.
  unfold detect.
  destruct (min root_ (features_pdf (features_pyramid im) []) features_nscales)
    as [ responses | e0 ]; cbn [bind is_ok].
  - split; [ reflexivity | split ].
    + intros e H. discriminate.
    + intros cs H. injection H as <-. reflexivity.
  - split; [ discriminate | split ].
    + intros e H. injection H as <-. reflexivity.
    + intros cs H. discriminate.
Qed.

Lemma detect_returns_empty_witness :
  detect unit unit unit (fun _ => []) (fun _ _ => [flat5; peak5]) 1 scenario_root tt
  = Ok []
  /\ detect unit unit unit (fun _ => []) (fun _ _ => []) 1 scenario_root tt
     = Err (AssertionFailed
              "responses.size() == (rootpart.ndescendants()+1 * rootpart.nmixtures() * nscales)").
Proof.
  split.
  - apply (proj1 (detect_returns_empty unit unit unit (fun _ => [])
                    (fun _ _ => [flat5; peak5]) 1 scenario_root tt)).
    reflexivity.
  - apply (proj1 (proj2 (detect_returns_empty unit unit unit (fun _ => [])
                           (fun _ _ => []) 1 scenario_root tt))).
    reflexivity.
Defined.

(** ** The loop bounds of [distanceTransform1D] are never the limit *)

Lemma load_within_fuel {T : Type} (buffer : string) (p : list T) (i : Z) :
  within_fuel (load buffer p i).
Proof.
  unfold load. destruct (i <? 0); [ exact I | ].
  destruct (nth_error p (Z.to_nat i)); exact I.
Qed.

Lemma load_cell_within_fuel {T : Type} (buffer : string) (p : list (option T)) (i : Z) :
  within_fuel (load_cell buffer p i).
Proof.
  unfold load_cell. pose proof (load_within_fuel buffer p i) as H.
  destruct (load buffer p i) as [ [ x | ] | e ]; cbn [bind]; [ exact I .. | exact H ].
Qed.

Lemma load_cell_bounds {T : Type} (buffer : string) (p : list (option T)) (i : Z) (x : T) :
  load_cell buffer p i = Ok x -> 0 <= i < Z.of_nat (length p).
Proof.
  unfold load_cell, load. destruct (i <? 0) eqn:E; [ discriminate | ].
  apply Z.ltb_ge in E.
  destruct (nth_error p (Z.to_nat i)) eqn:En; [ | discriminate ].
  intros _. assert (Z.to_nat i < length p)%nat by (apply nth_error_Some; congruence).
  lia.
Qed.

Lemma set_nth_length {T : Type} (p : list T) (i : nat) (x : T) :
  length (set_nth p i x) = length p.
Proof.
  revert i. induction p as [ | y p IH ]; intros [ | i ]; simpl; congruence.
Qed.

Lemma store_spec {T : Type} (buffer : string) (p : list (option T)) (i : Z) (x : T) :
  within_fuel (store buffer p i x)
  /\ forall p', store buffer p i x = Ok p' -> length p' = length p.
Proof.
  unfold store. destruct ((i <? 0) || (Z.of_nat (length p) <=? i)).
  - split; [ exact I | intros p' H; discriminate ].
  - split; [ exact I | ]. intros p' H. injection H as <-. apply set_nth_length.
Qed.

Lemma intersection_within_fuel (src : list float) (a b : float) (q : Z)
    (v : list (option Z)) (k : Z) :
  within_fuel (intersection src a b q v k).
Proof.
  unfold intersection.
  pose proof (load_cell_within_fuel "v" v k) as Hv.
  destruct (load_cell "v" v k) as [ vk | e ]; cbn [bind]; [ | exact Hv ].
  pose proof (load_within_fuel "src" src q) as Hq.
  destruct (load "src" src q) as [ src_q | e ]; cbn [bind]; [ | exact Hq ].
  pose proof (load_within_fuel "src" src vk) as Hvk.
  destruct (load "src" src vk) as [ src_vk | e ]; cbn [bind]; [ exact I | exact Hvk ].
Qed.

Lemma pop_loop_total (src : list float) (a b : float) (q : Z)
    (v : list (option Z)) (z : list (option float)) (fuel : nat) :
  forall (k : Z) (s : float),
    k < Z.of_nat fuel ->
    within_fuel (pop_loop fuel src a b q v z k s)
    /\ forall k' s', pop_loop fuel src a b q v z k s = Ok (k', s') -> 0 <= k' <= k.
Proof.
  induction fuel as [ | fuel IH ]; intros k s Hk; cbn [pop_loop].
  - pose proof (load_cell_within_fuel "z" z k) as Hz.
    destruct (load_cell "z" z k) as [ zk | e ] eqn:E; cbn [bind].
    + apply load_cell_bounds in E. simpl in Hk. lia.
    + split; [ exact Hz | intros k' s' H; discriminate ].
  - pose proof (load_cell_within_fuel "z" z k) as Hz.
    destruct (load_cell "z" z k) as [ zk | e ] eqn:E; cbn [bind].
    + apply load_cell_bounds in E. destruct (s <=? zk)%F.
      * pose proof (intersection_within_fuel src a b q v (k - 1)) as Hi.
        destruct (intersection src a b q v (k - 1)) as [ s1 | e ]; cbn [bind].
        -- destruct (IH (k - 1) s1) as [Hf Hb]; [ lia | ].
           split; [ exact Hf | ]. intros k' s' H. specialize (Hb k' s' H). lia.
        -- split; [ exact Hi | intros k' s' H; discriminate ].
      * split; [ exact I | ]. intros k' s' H. injection H as <- <-. lia.
    + split; [ exact Hz | intros k' s' H; discriminate ].
Qed.

Lemma advance_total (z : list (option float)) (q : Z) (fuel : nat) :
  forall k : Z,
    Z.of_nat (length z) <= k + 1 + Z.of_nat fuel ->
    within_fuel (advance fuel z k q)
    /\ forall k', advance fuel z k q = Ok k' -> k <= k'.
Proof.
  induction fuel as [ | fuel IH ]; intros k Hk; cbn [advance].
  - pose proof (load_cell_within_fuel "z" z (k + 1)) as Hz.
    destruct (load_cell "z" z (k + 1)) as [ zk | e ] eqn:E; cbn [bind].
    + apply load_cell_bounds in E. simpl in Hk. lia.
    + split; [ exact Hz | intros k' H; discriminate ].
  - pose proof (load_cell_within_fuel "z" z (k + 1)) as Hz.
    destruct (load_cell "z" z (k + 1)) as [ zk | e ] eqn:E; cbn [bind].
    + destruct (zk <? F.of_int q)%F.
      * destruct (IH (k + 1)) as [Hf Hb]; [ lia | ].
        split; [ exact Hf | ]. intros k' H. specialize (Hb k' H). lia.
      * split; [ exact I | ]. intros k' H. injection H as <-. lia.
    + split; [ exact Hz | intros k' H; discriminate ].
Qed.

Lemma for_iter_invariant {St : Type} (Inv : Z -> St -> Prop) (body : Z -> St -> result St)
    (count : nat) :
  forall (q : Z) (s : St),
    Inv q s ->
    (forall q' s', q <= q' < q + Z.of_nat count -> Inv q' s' ->
       within_fuel (body q' s') /\ forall s'', body q' s' = Ok s'' -> Inv (q' + 1) s'') ->
    within_fuel (for_iter count q body s)
    /\ forall s', for_iter count q body s = Ok s' -> Inv (q + Z.of_nat count) s'.
Proof.
  induction count as [ | count IH ]; intros q s Hs Hbody; cbn [for_iter].
  - split; [ exact I | ]. intros s' H. injection H as <-.
    rewrite Z.add_0_r. exact Hs.
  - destruct (Hbody q s) as [Hf Hnext]; [ lia | exact Hs | ].
    destruct (body q s) as [ s1 | e ]; cbn [bind].
    + replace (q + Z.of_nat (S count)) with (q + 1 + Z.of_nat count) by lia.
      apply IH; [ apply Hnext; reflexivity | ].
      intros q' s' Hq'. apply Hbody. lia.
    + split; [ exact Hf | intros s' H; discriminate ].
Qed.

Lemma envelope_step_total (fuel : nat) (src : list float) (a b : float) (q : Z)
    (v : list (option Z)) (z : list (option float)) (k : Z) :
  k < Z.of_nat fuel ->
  within_fuel (envelope_step fuel src a b q (v, z, k))
  /\ forall v' z' k', envelope_step fuel src a b q (v, z, k) = Ok (v', z', k') ->
       length z' = length z /\ k' <= k + 1.
Proof.
  intros Hk. unfold envelope_step.
  pose proof (intersection_within_fuel src a b q v k) as Hi.
  destruct (intersection src a b q v k) as [ s | e ]; cbn [bind];
    [ | split; [ exact Hi | intros v' z' k' H; discriminate ] ].
  destruct (pop_loop_total src a b q v z fuel k s Hk) as [Hf Hb].
  destruct (pop_loop fuel src a b q v z k s) as [ [k1 s1] | e ]; cbn [bind];
    [ | split; [ exact Hf | intros v' z' k' H; discriminate ] ].
  specialize (Hb k1 s1 eq_refl).
  destruct (store_spec "v" v (k1 + 1) q) as [Hv _].
  destruct (store "v" v (k1 + 1) q) as [ v1 | e ]; cbn [bind];
    [ | split; [ exact Hv | intros v' z' k' H; discriminate ] ].
  destruct (store_spec "z" z (k1 + 1) s1) as [Hz Hlen].
  destruct (store "z" z (k1 + 1) s1) as [ z1 | e ]; cbn [bind];
    [ | split; [ exact Hz | intros v' z' k' H; discriminate ] ].
  destruct (store_spec "z" z1 (k1 + 1 + 1) PosInf) as [Hz' Hlen'].
  destruct (store "z" z1 (k1 + 1 + 1) PosInf) as [ z2 | e ]; cbn [bind];
    [ | split; [ exact Hz' | intros v' z' k' H; discriminate ] ].
  split; [ exact I | ]. intros v' z' k' H. injection H as <- <- <-.
  rewrite (Hlen' z2 eq_refl), (Hlen z1 eq_refl). split; [ reflexivity | lia ].
Qed.

Lemma fill_step_total (fuel : nat) (src : list float) (a b : float)
    (v : list (option Z)) (z : list (option float)) (q k : Z)
    (dst : list float) (ptr : list Z) :
  Z.of_nat (length z) <= k + 1 + Z.of_nat fuel ->
  within_fuel (fill_step fuel src a b v z q (k, dst, ptr))
  /\ forall k' dst' ptr', fill_step fuel src a b v z q (k, dst, ptr) = Ok (k', dst', ptr') ->
       k <= k'.
Proof.
  intros Hk. unfold fill_step.
  destruct (advance_total z q fuel k Hk) as [Hf Hb].
  destruct (advance fuel z k q) as [ k1 | e ]; cbn [bind];
    [ | split; [ exact Hf | intros k' dst' ptr' H; discriminate ] ].
  specialize (Hb k1 eq_refl).
  pose proof (load_cell_within_fuel "v" v k1) as Hv.
  destruct (load_cell "v" v k1) as [ vk | e ]; cbn [bind];
    [ | split; [ exact Hv | intros k' dst' ptr' H; discriminate ] ].
  pose proof (load_within_fuel "src" src vk) as Hs.
  destruct (load "src" src vk) as [ src_vk | e ]; cbn [bind];
    [ | split; [ exact Hs | intros k' dst' ptr' H; discriminate ] ].
  split; [ exact I | ]. intros k' dst' ptr' H. injection H as <- _ _. exact Hb.
Qed.

(** No run of [distanceTransform1D] ends for want of loop fuel: each of its
    outcomes is one the C++ code has (a result, or an access out of
    bounds). *)
Lemma distanceTransform1D_within_fuel (src : list float) (n : Z) (a b : float) :
  within_fuel (distanceTransform1D src n a b).
Proof.
  unfold distanceTransform1D, new_array.
  destruct (n <? 0) eqn:En; [ exact I | ]. apply Z.ltb_ge in En.
  destruct (n + 1 <? 0) eqn:En1; [ exact I | ]. cbn [bind].
  destruct (store_spec "v" (repeat None (Z.to_nat n)) 0 0) as [Hv _].
  destruct (store "v" (repeat None (Z.to_nat n)) 0 0) as [ v0 | e ]; cbn [bind];
    [ | exact Hv ].
  destruct (store_spec "z" (repeat None (Z.to_nat (n + 1))) 0 PosInf) as [Hz Hlen].
  destruct (store "z" (repeat None (Z.to_nat (n + 1))) 0 PosInf) as [ z0 | e ];
    cbn [bind]; [ | exact Hz ].
  destruct (store_spec "z" z0 1 NegInf) as [Hz' Hlen'].
  destruct (store "z" z0 1 NegInf) as [ z1 | e ]; cbn [bind]; [ | exact Hz' ].
  assert (Hz1 : Z.of_nat (length z1) = n + 1).
  { rewrite (Hlen' z1 eq_refl), (Hlen z0 eq_refl), repeat_length. lia. }
  unfold for_loop.
  destruct (for_iter_invariant
              (fun q (st : list (option Z) * list (option float) * Z) =>
                 Z.of_nat (length (snd (fst st))) = n + 1 /\ snd st < q)
              (envelope_step (loop_fuel n) src a b) (Z.to_nat (n - 1)) 1 (v0, z1, 0))
    as [Hf Hinv].
  { cbn [fst snd]. split; [ exact Hz1 | lia ]. }
  { intros q' [[v' z'] k'] Hq' [Hl Hk]. cbn [fst snd] in Hl, Hk.
    destruct (envelope_step_total (loop_fuel n) src a b q' v' z' k') as [Hf Hb];
      [ unfold loop_fuel; lia | ].
    split; [ exact Hf | ]. intros [[v'' z''] k''] H. cbn [fst snd].
    destruct (Hb v'' z'' k'' H) as [Hl' Hk']. split; [ congruence | lia ]. }
  destruct (for_iter (Z.to_nat (n - 1)) 1 (envelope_step (loop_fuel n) src a b) (v0, z1, 0))
    as [ [[v2 z2] k2] | e ]; cbn [bind]; [ | exact Hf ].
  destruct (Hinv _ eq_refl) as [Hz2 _]. cbn [fst snd] in Hz2.
  destruct (for_iter_invariant
              (fun q (st : Z * list float * list Z) => 0 <= fst (fst st))
              (fill_step (loop_fuel n) src a b v2 z2) (Z.to_nat (n - 0)) 0 (0, [], []))
    as [Hf2 _].
  { cbn [fst]. lia. }
  { intros q' [[k' dst'] ptr'] Hq' Hk. cbn [fst] in Hk.
    destruct (fill_step_total (loop_fuel n) src a b v2 z2 q' k' dst' ptr') as [Hf' Hb];
      [ unfold loop_fuel; lia | ].
    split; [ exact Hf' | ]. intros [[k'' dst''] ptr''] H. cbn [fst].
    specialize (Hb k'' dst'' ptr'' H). lia. }
  destruct (for_iter (Z.to_nat (n - 0)) 0 (fill_step (loop_fuel n) src a b v2 z2) (0, [], []))
    as [ [[k3 dst3] ptr3] | e ]; cbn [bind]; [ exact I | exact Hf2 ].
Qed.

(** ** The argmin composition, given exact row transforms *)

(** With exact row transforms in place of [distanceTransform1D], lines
    228-256 report for cell (1,1) of this grid the score 2 and the source
    (Iy, Ix) = (0, 1), whose direct cost is 101: the score 2 comes from the
    source (0, 0), which is [Ix] of row [Iy[1][1]] and not of row 1. *)
Lemma composed_argmins_miss_the_source :
  distanceTransform_with dt1d_exact
    (plane 2 2 [0; 100; 100; 100])
    [F.of_int (-1); F.of_int 0; F.of_int (-1); F.of_int 0]
  = Ok (plane 2 2 [0; 1; 1; 2], mkMat 2 2 true [0; 0; 0; 1], mkMat 2 2 true [0; 0; 0; 0])
  /\ direct_cost (plane 2 2 [0; 100; 100; 100])
       [F.of_int (-1); F.of_int 0; F.of_int (-1); F.of_int 0] 1 1 0 1
     = Ok (F.of_int 101)
  /\ direct_cost (plane 2 2 [0; 100; 100; 100])
       [F.of_int (-1); F.of_int 0; F.of_int (-1); F.of_int 0] 1 1 0 0
     = Ok (F.of_int 2).
Proof. repeat split; reflexivity. Qed.


(** * Further properties of the code *)

(** ** A part with a single mixture *)

Lemma is_ok_bind_err {A B : Type} (c : result A) (k : A -> result B) :
  (forall a, c = Ok a -> is_ok (k a) = false) -> is_ok (bind c k) = false.
Proof.
  intros H. destruct c as [ a | e ]; cbn [bind]; [ apply H | ]; reflexivity.
Qed.

(** With one mixture the stack handed to [reduceMax] has one plane. *)
Lemma mix_step_single (self : Part) (Np m : Z) (st : mixing) :
  nmixtures self = 1 -> is_ok (mix_step self Np m st) = false.
Proof.
  intros H. unfold mix_step. rewrite H. change (range 0 1) with [0].
  apply is_ok_bind_err. intros bias_m _. cbn [mapM].
  destruct (load "scores" (scores st) 0) as [ p | e ]; cbn [bind]; [ | reflexivity ].
  destruct (load "bias[m]" bias_m 0) as [ b | e ]; cbn [bind]; reflexivity.
Qed.

Lemma pass_message_single (self parent : Part) (scores : list (Mat float))
    (nparts scale : Z) :
  nmixtures self = 1 -> is_ok (pass_message self parent scores nparts scale) = false.
Proof.
  intros H. unfold pass_message. apply is_ok_bind_err.
  intros [[scoresi Ixi] Iyi] _. rewrite H. unfold for_loop.
  change (Z.to_nat (1 - 0)) with 1%nat. cbn [for_iter].
  apply is_ok_bind_err. intros st' E.
  match type of E with
  | ?run = _ => assert (F : is_ok run = false) by (apply mix_step_single; exact H)
  end.
  rewrite E in F. discriminate.
Qed.

Lemma minRecursive_unfold (self parent : Part) (scores : list (Mat float))
    (nparts scale : Z) :
  minRecursive self parent scores nparts scale
  = (scores <-
       (if isLeaf self then Ok scores
        else
          (fix visit (cs : list Part) (scores : list (Mat float)) :=
             match cs with
             | [] => Ok scores
             | c :: cs' =>
                 scores <- minRecursive c self scores nparts scale ;;
                 visit cs' scores
             end) (children self) scores) ;;
     ' (mkMixing _ _ _ _ _ _ scores) <- pass_message self parent scores nparts scale ;;
     Ok scores).
Proof. destruct self. reflexivity. Qed.

(** X2: minRecursive never returns on a part that has exactly one mixture,
    whatever its children, planes, weights and anchor are: where nothing
    fails before, the one-plane stack fails the K > 1 check of reduceMax. *)
Theorem minRecursive_single_mixture_never_returns (self parent : Part)
    (scores : list (Mat float)) (nparts scale : Z) :
  nmixtures self = 1 ->
  is_ok (minRecursive self parent scores nparts scale) = false.
Proof.
  intros H. rewrite minRecursive_unfold. apply is_ok_bind_err. intros scores' _.
  apply is_ok_bind_err. intros st E.
  pose proof (pass_message_single self parent scores' nparts scale H) as F.
  rewrite E in F. discriminate.
Qed.

Lemma minRecursive_single_mixture_never_returns_witness :
  is_ok (minRecursive (single_mixture 0 (0, 0) []) scenario_root
           [mkMat 0 0 true []; mkMat 0 0 true []] 2 0) = false.
Proof.
  apply (minRecursive_single_mixture_never_returns (single_mixture 0 (0, 0) [])
           scenario_root [mkMat 0 0 true []; mkMat 0 0 true []] 2 0).
  reflexivity.
Defined.

(** ** [reducePickIndex] on its own *)

Lemma fold_left_min_init (xs : list Z) (x : Z) : fold_left Z.min xs x <= x.
Proof.
  revert x. induction xs as [ | z xs IH ]; intros x; simpl.
  - lia.
  - specialize (IH (Z.min x z)). lia.
Qed.

Lemma fold_left_min_le (xs : list Z) (x y : Z) :
  In y (x :: xs) -> fold_left Z.min xs x <= y.
Proof.
  revert x. induction xs as [ | z xs IH ]; intros x Hy; simpl.
  - destruct Hy as [ <- | [] ]. lia.
  - pose proof (fold_left_min_init xs (Z.min x z)) as Hinit.
    destruct Hy as [ <- | [ <- | Hy ] ]; [ lia | lia | ].
    apply IH. right. exact Hy.
Qed.

Lemma fold_left_min_lower (xs : list Z) (x lo : Z) :
  Forall (fun y => lo <= y) (x :: xs) -> lo <= fold_left Z.min xs x.
Proof.
  revert x. induction xs as [ | z xs IH ]; intros x H; simpl.
  - inversion H. assumption.
  - apply IH. inversion H as [ | ? ? Hx Hrest ]. inversion Hrest as [ | ? ? Hz Hxs ].
    constructor; [ lia | exact Hxs ].
Qed.

Lemma fold_left_max_upper (xs : list Z) (x hi : Z) :
  Forall (fun y => y < hi) (x :: xs) -> fold_left Z.max xs x < hi.
Proof.
  revert x. induction xs as [ | z xs IH ]; intros x H; simpl.
  - inversion H. assumption.
  - apply IH. inversion H as [ | ? ? Hx Hrest ]. inversion Hrest as [ | ? ? Hz Hxs ].
    constructor; [ lia | exact Hxs ].
Qed.

(** [minMaxLoc] brackets every entry of the plane. *)
Lemma minMaxLoc_brackets (idx : Mat Z) (k : Z) :
  In k (data idx) -> fst (minMaxLoc idx) <= k <= snd (minMaxLoc idx).
Proof.
  unfold minMaxLoc. destruct (data idx) as [ | x xs ]; [ intros [] | ].
  intros H. cbn [fst snd]. split.
  - apply fold_left_min_le. exact H.
  - apply fold_left_max_ge. exact H.
Qed.

Lemma minMaxLoc_in_range (idx : Mat Z) (K : Z) :
  0 < K -> indices_below K idx ->
  0 <= fst (minMaxLoc idx) /\ snd (minMaxLoc idx) < K.
Proof.
  unfold minMaxLoc, indices_below. intros HK H.
  destruct (data idx) as [ | x xs ]; cbn [fst snd]; [ lia | ]. split.
  - apply fold_left_min_lower. eapply Forall_impl; [ | exact H ].
    intros y Hy. cbv beta in Hy. lia.
  - apply fold_left_max_upper. eapply Forall_impl; [ | exact H ].
    intros y Hy. cbv beta in Hy. lia.
Qed.

Lemma ptr_dense {T : Type} (r c : Z) (p : Mat T) : dense r c p -> ptr p 0 = data p.
Proof.
  intros (_ & _ & Hcont & _). unfold ptr. rewrite Hcont. reflexivity.
Qed.

(** X3: reducePickIndex does what its header says.  On K >= 1 dense planes
    of one shape and a dense index plane of that shape whose entries lie in
    [0, K), it returns a plane of that shape whose cell n is cell n of the
    plane that idx names at n. *)
Theorem reducePickIndex_picks {T : Type} (inp : list (Mat T)) (idx : Mat Z) (r c : Z) :
  (1 <= length inp)%nat -> 0 <= r -> 0 <= c ->
  Forall (dense r c) inp ->
  dense r c idx ->
  indices_below (Z.of_nat (length inp)) idx ->
  exists out,
    reducePickIndex inp idx = Ok (mkMat r c true out)
    /\ Z.of_nat (length out) = r * c
    /\ forall n, 0 <= n < r * c ->
         exists k p x,
           nth_error (data idx) (Z.to_nat n) = Some k
           /\ nth_error inp (Z.to_nat k) = Some p
           /\ nth_error (data p) (Z.to_nat n) = Some x
           /\ nth_error out (Z.to_nat n) = Some x.
Proof.
  intros HK Hr Hc Hinp Hidx Hbelow. unfold reducePickIndex.
  destruct (minMaxLoc_in_range idx (Z.of_nat (length inp)) ltac:(lia) Hbelow)
    as [Hmin Hmax].
  destruct (minMaxLoc idx) as [minv maxv]. cbn [fst snd] in Hmin, Hmax.
  replace (minv >=? 0) with true by (symmetry; apply Z.geb_le; lia).
  replace (maxv <? Z.of_nat (length inp)) with true by (symmetry; apply Z.ltb_lt; lia).
  cbn [andb assert bind].
  destruct Hidx as (Hri & Hci & Hconti & Hleni).
  rewrite (mapM_ok _ (fun _ => tt)).
  2:{ intros k Hk. apply range_In in Hk.
      destruct (load_Forall _ "in" inp k Hinp) as (p & -> & (Hrp & Hcp & _)); [ lia | ].
      cbn [bind]. unfold size, size_eqb. cbn [fst snd].
      rewrite Hrp, Hcp, Hri, Hci, !Z.eqb_refl. reflexivity. }
  cbn [bind].
  destruct (load_Forall _ "in" inp 0 Hinp) as (in0 & -> & (Hr0 & Hc0 & Hcont0 & _)); [ lia | ].
  cbn [bind]. rewrite Hcont0, Hr0, Hc0.
  change (range 0 1) with [0]. cbn [mapM].
  destruct (mapM_Forall2
              (fun n x => exists k p,
                 nth_error (data idx) (Z.to_nat n) = Some k
                 /\ nth_error inp (Z.to_nat k) = Some p
                 /\ nth_error (data p) (Z.to_nat n) = Some x)
              (fun n =>
                 i <- load "idx_ptr" (ptr idx 0) n ;;
                 p <- load "in_ptr" (map (fun ink => ptr ink 0) inp) i ;;
                 load "in_ptr[idx_ptr[n]]" p n)
              (range 0 (r * c))) as (out & Hout & HF).
  { intros n Hn. apply range_In in Hn.
    unfold ptr at 1. rewrite Hconti. cbn [skipn Z.to_nat Z.mul].
    destruct (nth_error (data idx) (Z.to_nat n)) as [ k | ] eqn:Ek;
      [ | apply nth_error_None in Ek; lia ].
    assert (Hk : 0 <= k < Z.of_nat (length inp)).
    { unfold indices_below in Hbelow. rewrite Forall_forall in Hbelow.
      apply Hbelow. eapply nth_error_In. exact Ek. }
    destruct (nth_error inp (Z.to_nat k)) as [ p | ] eqn:Ep;
      [ | apply nth_error_None in Ep; lia ].
    assert (Hp : dense r c p).
    { rewrite Forall_forall in Hinp. apply Hinp. eapply nth_error_In. exact Ep. }
    destruct (nth_error (data p) (Z.to_nat n)) as [ x | ] eqn:Ex;
      [ | apply nth_error_None in Ex; destruct Hp as (_ & _ & _ & Hlen); lia ].
    exists x. split; [ | exists k, p; repeat split; assumption ].
    rewrite (load_nth _ _ n k) by (try lia; exact Ek). cbn [bind].
    rewrite (load_nth _ _ k (ptr p 0)).
    - cbn [bind]. rewrite (ptr_dense r c p Hp). apply load_nth; [ lia | exact Ex ].
    - lia.
    - rewrite nth_error_map, Ep. reflexivity. }
  rewrite Hout. cbn [bind]. exists out. split; [ | split ].
  - unfold created, size. cbn [fst snd concat]. rewrite Hr0, Hc0, app_nil_r. reflexivity.
  - apply Forall2_length in HF. rewrite <- HF. unfold range.
    rewrite length_map, length_seq. lia.
  - intros n Hn.
    destruct (Forall2_lookup _ _ _ HF (Z.to_nat n) n (range_lookup n _ Hn))
      as (x & Hx & k & p & Hk & Hp & Hxp).
    exists k, p, x. repeat split; assumption.
Qed.

Lemma plane_dense (r c : Z) (xs : list Z) :
  Z.of_nat (length xs) = r * c -> dense r c (plane r c xs).
Proof.
  intros H. unfold dense, plane. cbn [rows cols isContinuous data].
  rewrite length_map. repeat split; assumption.
Qed.

Lemma reducePickIndex_picks_witness :
  exists out,
    reducePickIndex [plane 1 3 [0; 1; 5]; plane 1 3 [0; 0; 7]] (mkMat 1 3 true [0; 0; 1])
    = Ok (mkMat 1 3 true out)
    /\ Z.of_nat (length out) = 1 * 3
    /\ forall n, 0 <= n < 1 * 3 ->
         exists k p x,
           nth_error (data (mkMat 1 3 true [0; 0; 1])) (Z.to_nat n) = Some k
           /\ nth_error [plane 1 3 [0; 1; 5]; plane 1 3 [0; 0; 7]] (Z.to_nat k) = Some p
           /\ nth_error (data p) (Z.to_nat n) = Some x
           /\ nth_error out (Z.to_nat n) = Some x.
Proof.
  apply (reducePickIndex_picks [plane 1 3 [0; 1; 5]; plane 1 3 [0; 0; 7]]
           (mkMat 1 3 true [0; 0; 1]) 1 3);
    [ simpl; lia | lia | lia | | | ].
  - repeat constructor; apply plane_dense; reflexivity.
  - repeat split; reflexivity.
  - unfold indices_below. simpl. repeat constructor; lia.
Defined.

(** X4: reducePickIndex turns down every index plane that holds an entry
    outside [0, K), whatever the planes are. *)
Theorem reducePickIndex_rejects_bad_index {T : Type} (inp : list (Mat T))
    (idx : Mat Z) (k : Z) :
  In k (data idx) ->
  k < 0 \/ Z.of_nat (length inp) <= k ->
  reducePickIndex inp idx = Err (AssertionFailed "minv >= 0 && maxv < K").
Proof.
  intros Hin Hbad. unfold reducePickIndex.
  pose proof (minMaxLoc_brackets idx k Hin) as [Hmin Hmax].
  destruct (minMaxLoc idx) as [minv maxv]. cbn [fst snd] in Hmin, Hmax.
  destruct Hbad as [Hneg | Hbig].
  - replace (minv >=? 0) with false
      by (symmetry; rewrite Z.geb_leb; apply Z.leb_gt; lia).
    reflexivity.
  - replace (maxv <? Z.of_nat (length inp)) with false
      by (symmetry; apply Z.ltb_ge; lia).
    rewrite andb_false_r. reflexivity.
Qed.

Lemma reducePickIndex_rejects_bad_index_witness :
  reducePickIndex [plane 1 2 [0; 7]; plane 1 2 [0; 0]] (mkMat 1 2 true [0; 2])
  = Err (AssertionFailed "minv >= 0 && maxv < K").
Proof.
  apply (reducePickIndex_rejects_bad_index
           [plane 1 2 [0; 7]; plane 1 2 [0; 0]] (mkMat 1 2 true [0; 2]) 2).
  - simpl. right. left. reflexivity.
  - right. simpl. lia.
Defined.

(** ** Planes of unequal shape *)

Lemma mapM_checks {A : Type} (f : A -> result unit) (e : error) (l : list A) :
  (forall x, In x l -> f x = Ok tt \/ f x = Err e) ->
  (exists x, In x l /\ f x = Err e) ->
  mapM f l = Err e.
Proof.
  induction l as [ | y l IH ]; intros Hall (x & Hx & Hfx).
  - destruct Hx.
  - cbn [mapM]. destruct (Hall y (or_introl eq_refl)) as [Hy | Hy]; rewrite Hy; cbn [bind].
    + rewrite IH; [ reflexivity | | ].
      * intros z Hz. apply Hall. right. exact Hz.
      * destruct Hx as [ <- | Hx ]; [ congruence | ]. exists x. split; assumption.
    + reflexivity.
Qed.

Lemma load_in_range {T : Type} (buffer : string) (p : list T) (i : Z) :
  0 <= i < Z.of_nat (length p) ->
  exists x, load buffer p i = Ok x /\ nth_error p (Z.to_nat i) = Some x.
Proof.
  intros Hi. destruct (nth_error p (Z.to_nat i)) as [ x | ] eqn:E.
  - exists x. split; [ apply load_nth; [ lia | exact E ] | reflexivity ].
  - apply nth_error_None in E. lia.
Qed.

(** X5: with every index in range, reducePickIndex turns down a stack in
    which some plane has another shape than the index plane. *)
Theorem reducePickIndex_rejects_shape_mismatch {T : Type} (inp : list (Mat T))
    (idx : Mat Z) (j : nat) (p : Mat T) :
  indices_below (Z.of_nat (length inp)) idx ->
  nth_error inp j = Some p ->
  size_eqb (size p) (size idx) = false ->
  reducePickIndex inp idx = Err (AssertionFailed "in[k].size() == idx.size()").
Proof.
  intros Hbelow Hj Hsize. unfold reducePickIndex.
  assert (Hlen : (j < length inp)%nat) by (apply nth_error_Some; congruence).
  destruct (minMaxLoc_in_range idx (Z.of_nat (length inp)) ltac:(lia) Hbelow)
    as [Hmin Hmax].
  destruct (minMaxLoc idx) as [minv maxv]. cbn [fst snd] in Hmin, Hmax.
  replace (minv >=? 0) with true by (symmetry; apply Z.geb_le; lia).
  replace (maxv <? Z.of_nat (length inp)) with true by (symmetry; apply Z.ltb_lt; lia).
  cbn [andb assert bind]. apply bind_err. apply mapM_checks.
  - intros k Hk. apply range_In in Hk.
    destruct (load_in_range "in" inp k) as (q & -> & _); [ lia | ]. cbn [bind].
    unfold assert. destruct (size_eqb (size q) (size idx)); [ left | right ]; reflexivity.
  - exists (Z.of_nat j). split; [ apply range_In; lia | ].
    rewrite (load_nth "in" inp (Z.of_nat j) p) by (try lia; rewrite Nat2Z.id; exact Hj).
    cbn [bind]. rewrite Hsize. reflexivity.
Qed.

Lemma reducePickIndex_rejects_shape_mismatch_witness :
  reducePickIndex [plane 1 2 [0; 7]; plane 2 1 [0; 0]] (mkMat 1 2 true [0; 1])
  = Err (AssertionFailed "in[k].size() == idx.size()").
Proof.
  apply (reducePickIndex_rejects_shape_mismatch
           [plane 1 2 [0; 7]; plane 2 1 [0; 0]] (mkMat 1 2 true [0; 1])
           1%nat (plane 2 1 [0; 0])).
  - unfold indices_below. simpl. repeat constructor; lia.
  - reflexivity.
  - reflexivity.
Defined.

(** X6: reduceMax turns down every stack of K >= 2 planes in which two
    neighbours differ in shape. *)
Theorem reduceMax_rejects_shape_mismatch (inp : list (Mat float)) (j : nat)
    (p p' : Mat float) :
  nth_error inp j = Some p' ->
  nth_error inp (S j) = Some p ->
  size_eqb (size p) (size p') = false ->
  reduceMax inp = Err (AssertionFailed "in[k].size() == in[k-1].size()").
Proof.
  intros Hj' Hj Hsize. unfold reduceMax.
  assert (Hlen : (S j < length inp)%nat) by (apply nth_error_Some; congruence).
  replace (Z.of_nat (length inp) >? 1) with true by (symmetry; apply Z.gtb_lt; lia).
  cbn [assert bind]. apply bind_err. apply mapM_checks.
  - intros k Hk. apply range_In in Hk.
    destruct (load_in_range "in" inp k) as (q & -> & _); [ lia | ]. cbn [bind].
    destruct (load_in_range "in" inp (k - 1)) as (q' & -> & _); [ lia | ]. cbn [bind].
    unfold assert. destruct (size_eqb (size q) (size q')); [ left | right ]; reflexivity.
  - exists (Z.of_nat (S j)). split; [ apply range_In; lia | ].
    rewrite (load_nth "in" inp (Z.of_nat (S j)) p)
      by (try lia; rewrite Nat2Z.id; exact Hj).
    cbn [bind].
    rewrite (load_nth "in" inp (Z.of_nat (S j) - 1) p').
    + cbn [bind]. rewrite Hsize. reflexivity.
    + lia.
    + replace (Z.to_nat (Z.of_nat (S j) - 1)) with j by lia. exact Hj'.
Qed.

Lemma reduceMax_rejects_shape_mismatch_witness :
  reduceMax [plane 1 2 [0; 7]; plane 1 2 [0; 0]; plane 2 1 [3; 4]]
  = Err (AssertionFailed "in[k].size() == in[k-1].size()").
Proof.
  apply (reduceMax_rejects_shape_mismatch
           [plane 1 2 [0; 7]; plane 1 2 [0; 0]; plane 2 1 [3; 4]]
           1%nat (plane 2 1 [3; 4]) (plane 1 2 [0; 0]));
    reflexivity.
Defined.

(** ** What [reduceMax] never returns *)

Lemma mapM_inv {A B : Type} (f : A -> result B) (l : list A) (ys : list B) :
  mapM f l = Ok ys -> Forall2 (fun x y => f x = Ok y) l ys.
Proof.
  revert ys. induction l as [ | x l IH ]; intros ys H; cbn [mapM] in H.
  - injection H as <-. constructor.
  - destruct (f x) as [ y | e ] eqn:Ey; cbn [bind] in H; [ | discriminate ].
    destruct (mapM f l) as [ ys' | e ]; cbn [bind] in H; [ | discriminate ].
    injection H as <-. constructor; [ exact Ey | apply IH; reflexivity ].
Qed.

Lemma mapM_Forall {A B : Type} (P : B -> Prop) (f : A -> result B) (l : list A)
    (ys : list B) :
  (forall x y, In x l -> f x = Ok y -> P y) ->
  mapM f l = Ok ys -> Forall P ys.
Proof.
  intros HP H. apply mapM_inv in H.
  induction H as [ | x y l ys Hy _ IH ]; constructor.
  - apply (HP x); [ left; reflexivity | exact Hy ].
  - apply IH. intros x' y' Hx'. apply HP. right. exact Hx'.
Qed.

Lemma for_iter_preserves {St : Type} (P : St -> Prop) (body : Z -> St -> result St) :
  (forall q s s', P s -> body q s = Ok s' -> P s') ->
  forall (count : nat) (q : Z) (s s' : St),
    P s -> for_iter count q body s = Ok s' -> P s'.
Proof.
  intros Hbody. induction count as [ | count IH ]; intros q s s' Hs H; cbn [for_iter] in H.
  - injection H as <-. exact Hs.
  - destruct (body q s) as [ s1 | e ] eqn:E; cbn [bind] in H; [ | discriminate ].
    apply (IH (q + 1) s1); [ apply (Hbody q s); assumption | exact H ].
Qed.

(** A NaN never beats the incumbent, and the incumbent starts at [-inf]. *)
Lemma max_step_keeps_number (in_ptr : list (list float)) (n k : Z)
    (st st' : Z * float) :
  F.is_nan (snd st) = false -> max_step in_ptr n k st = Ok st' ->
  F.is_nan (snd st') = false.
Proof.
  destruct st as [i v]. cbn [snd]. intros Hv. unfold max_step.
  destruct (load "in_ptr" in_ptr k) as [ p | e ]; cbn [bind]; [ | discriminate ].
  destruct (load "in_ptr[k]" p n) as [ x | e ]; cbn [bind]; [ | discriminate ].
  destruct (x >? v)%F eqn:E; intros H; injection H as <-; cbn [snd].
  - destruct x; [ destruct v; discriminate | reflexivity .. ].
  - exact Hv.
Qed.

(** X7: whenever reduceMax returns, both planes have the shape of the
    first input plane and the value plane holds no NaN: a NaN score is
    never taken as a maximum. *)
Theorem reduceMax_never_selects_nan (inp : list (Mat float))
    (maxVal : Mat float) (maxIdx : Mat Z) :
  reduceMax inp = Ok (maxVal, maxIdx) ->
  (exists in0, nth_error inp 0 = Some in0
               /\ size maxVal = size in0 /\ size maxIdx = size in0)
  /\ Forall (fun v => F.is_nan v = false) (data maxVal).
Proof.
  unfold reduceMax.
  destruct (assert _ "K > 1"); cbn [bind]; [ | discriminate ].
  destruct (mapM _ (range 1 _)); cbn [bind]; [ | discriminate ].
  destruct (load "in" inp 0) as [ in0 | e ] eqn:E0; cbn [bind]; [ | discriminate ].
  destruct (if isContinuous in0 then (1, rows in0 * cols in0) else (rows in0, cols in0))
    as [M N].
  destruct (mapM _ (range 0 M)) as [ out | e ] eqn:Eout; cbn [bind]; [ | discriminate ].
  intros H. injection H as <- <-. split.
  - exists in0. split; [ | split; reflexivity ].
    unfold load in E0. cbn in E0. destruct inp; [ discriminate | ].
    cbn in E0. injection E0 as ->. reflexivity.
  - unfold created. cbn [data]. apply Forall_concat. apply Forall_map.
    eapply mapM_Forall; [ | exact Eout ].
    intros m row _ Hrow. cbv beta in Hrow. apply Forall_map.
    eapply mapM_Forall; [ | exact Hrow ].
    intros n cell _ Hcell. cbv beta in Hcell. unfold for_loop in Hcell.
    eapply (for_iter_preserves (fun st => F.is_nan (snd st) = false)); [ | | exact Hcell ].
    + intros q s s'. apply max_step_keeps_number.
    + reflexivity.
Qed.

Lemma reduceMax_never_selects_nan_witness :
  (exists in0, nth_error [mkMat 1 2 true [NaN; Fin 1]; mkMat 1 2 true [Fin 2; NaN]] 0
               = Some in0
               /\ size (mkMat 1 2 true [Fin 2; Fin 1]) = size in0
               /\ size (mkMat 1 2 true [0; 1]) = size in0)
  /\ Forall (fun v => F.is_nan v = false) (data (mkMat 1 2 true [Fin 2; Fin 1])).
Proof.
  apply (reduceMax_never_selects_nan
           [mkMat 1 2 true [NaN; Fin 1]; mkMat 1 2 true [Fin 2; NaN]]
           (mkMat 1 2 true [Fin 2; Fin 1]) (mkMat 1 2 true [0; 1])).
  reflexivity.
Defined.

(** ** What [distanceTransform1D] returns, when it returns *)

Lemma load_inv {T : Type} (buffer : string) (p : list T) (i : Z) (x : T) :
  load buffer p i = Ok x -> 0 <= i /\ nth_error p (Z.to_nat i) = Some x.
Proof.
  unfold load. destruct (i <? 0) eqn:E; [ discriminate | ]. apply Z.ltb_ge in E.
  destruct (nth_error p (Z.to_nat i)); [ | discriminate ].
  intros H. injection H as <-. split; [ exact E | reflexivity ].
Qed.

Lemma load_cell_inv {T : Type} (buffer : string) (p : list (option T)) (i : Z) (x : T) :
  load_cell buffer p i = Ok x -> 0 <= i /\ nth_error p (Z.to_nat i) = Some (Some x).
Proof.
  unfold load_cell. destruct (load buffer p i) as [ [ y | ] | e ] eqn:E; cbn [bind];
    try discriminate.
  intros H. injection H as <-. apply load_inv in E. exact E.
Qed.

Lemma set_nth_Forall {T : Type} (P : T -> Prop) (p : list T) (i : nat) (x : T) :
  Forall P p -> P x -> Forall P (set_nth p i x).
Proof.
  intros Hp Hx. revert i. induction Hp as [ | y p Hy Hp IH ]; intros [ | i ]; simpl;
    constructor; auto.
Qed.

Lemma store_slots (n : Z) (v v' : list (option Z)) (i x : Z) :
  slots_in_range n v -> 0 <= x < n -> store "v" v i x = Ok v' ->
  slots_in_range n v'.
Proof.
  unfold store, slots_in_range. intros Hv Hx.
  destruct ((i <? 0) || (Z.of_nat (length v) <=? i)); [ discriminate | ].
  intros H. injection H as <-. apply set_nth_Forall; assumption.
Qed.

Lemma for_iter_ok_invariant {St : Type} (Inv : Z -> St -> Prop)
    (body : Z -> St -> result St) (count : nat) :
  forall (q : Z) (s s' : St),
    Inv q s ->
    (forall q' t t', q <= q' < q + Z.of_nat count ->
       Inv q' t -> body q' t = Ok t' -> Inv (q' + 1) t') ->
    for_iter count q body s = Ok s' ->
    Inv (q + Z.of_nat count) s'.
Proof.
  induction count as [ | count IH ]; intros q s s' Hs Hbody H; cbn [for_iter] in H.
  - injection H as <-. rewrite Z.add_0_r. exact Hs.
  - destruct (body q s) as [ s1 | e ] eqn:E; cbn [bind] in H; [ | discriminate ].
    replace (q + Z.of_nat (S count)) with (q + 1 + Z.of_nat count) by lia.
    apply (IH (q + 1) s1 s').
    + apply (Hbody q s); [ lia | exact Hs | exact E ].
    + intros q' t t' Hq'. apply Hbody. lia.
    + exact H.
Qed.

Lemma envelope_step_slots (fuel : nat) (src : list float) (a b : float) (n q : Z)
    (v v' : list (option Z)) (z z' : list (option float)) (k k' : Z) :
  0 <= q < n -> slots_in_range n v ->
  envelope_step fuel src a b q (v, z, k) = Ok (v', z', k') ->
  slots_in_range n v'.
Proof.
  intros Hq Hv. unfold envelope_step.
  destruct (intersection src a b q v k) as [ s | e ]; cbn [bind]; [ | discriminate ].
  destruct (pop_loop fuel src a b q v z k s) as [ [k1 s1] | e ]; cbn [bind];
    [ | discriminate ].
  destruct (store "v" v (k1 + 1) q) as [ v1 | e ] eqn:Ev; cbn [bind]; [ | discriminate ].
  destruct (store "z" z (k1 + 1) s1) as [ z1 | e ]; cbn [bind]; [ | discriminate ].
  destruct (store "z" z1 (k1 + 1 + 1) PosInf) as [ z2 | e ]; cbn [bind];
    [ | discriminate ].
  intros H. injection H as <- _ _. apply (store_slots n v v1 (k1 + 1) q); assumption.
Qed.

Lemma fill_step_filled (fuel : nat) (src : list float) (a b : float) (n q : Z)
    (v : list (option Z)) (z : list (option float))
    (st st' : Z * list float * list Z) :
  0 <= q -> slots_in_range n v ->
  filled_so_far src a b n q st ->
  fill_step fuel src a b v z q st = Ok st' ->
  filled_so_far src a b n (q + 1) st'.
Proof.
  intros Hq Hv. destruct st as [[k dst] arg]. intros (Hld & Hla & Hcells).
  unfold fill_step.
  destruct (advance fuel z k q) as [ k1 | e ]; cbn [bind]; [ | discriminate ].
  destruct (load_cell "v" v k1) as [ vk | e ] eqn:Evk; cbn [bind]; [ | discriminate ].
  destruct (load "src" src vk) as [ x | e ] eqn:Ex; cbn [bind]; [ | discriminate ].
  intros H. injection H as <-. cbn [filled_so_far].
  apply load_cell_inv in Evk. destruct Evk as [_ Evk].
  apply load_inv in Ex. destruct Ex as [_ Ex].
  assert (Hvk : 0 <= vk < n).
  { unfold slots_in_range in Hv. rewrite Forall_forall in Hv.
    apply (Hv (Some vk)). eapply nth_error_In. exact Evk. }
  rewrite !length_app. cbn [length]. split; [ lia | split; [ lia | ] ].
  intros i Hi. destruct (Z.eq_dec i q) as [-> | Hne].
  - exists vk. eexists. repeat split; try lia.
    + rewrite nth_error_app2 by lia.
      replace (Z.to_nat q - length arg)%nat with 0%nat by lia. reflexivity.
    + rewrite nth_error_app2 by lia.
      replace (Z.to_nat q - length dst)%nat with 0%nat by lia. reflexivity.
    + exists x. split; [ exact Ex | reflexivity ].
  - destruct (Hcells i) as (p & d & Hp & Hrange & Hd & Hpar); [ lia | ].
    exists p, d. repeat split; try lia; try exact Hpar.
    + rewrite nth_error_app1 by lia. exact Hp.
    + rewrite nth_error_app1 by lia. exact Hd.
Qed.

(** X8: whenever distanceTransform1D returns, dst and arg have n entries,
    every arg[q] is a position in [0, n), and dst[q] is the parabola rooted
    at arg[q] read at q: a (q-p)^2 + b (q-p) + src[p] with p = arg[q]. *)
Theorem distanceTransform1D_output_invariant (src : list float) (n : Z) (a b : float)
    (dst : list float) (arg : list Z) :
  distanceTransform1D src n a b = Ok (dst, arg) ->
  Z.of_nat (length dst) = n /\ Z.of_nat (length arg) = n
  /\ forall q, 0 <= q < n ->
       exists p d, nth_error arg (Z.to_nat q) = Some p /\ 0 <= p < n
                   /\ nth_error dst (Z.to_nat q) = Some d
                   /\ parabola_at src a b q p d.
Proof.
  unfold distanceTransform1D, new_array.
  destruct (n <? 0) eqn:En; [ discriminate | ]. apply Z.ltb_ge in En.
  destruct (n + 1 <? 0); [ discriminate | ]. cbn [bind].
  destruct (store "v" (repeat None (Z.to_nat n)) 0 0) as [ v0 | e ] eqn:Ev0; cbn [bind];
    [ | discriminate ].
  assert (Hn : 0 < n).
  { unfold store in Ev0. rewrite repeat_length in Ev0.
    destruct ((0 <? 0) || (Z.of_nat (Z.to_nat n) <=? 0)) eqn:E; [ discriminate | ].
    apply orb_false_iff in E. destruct E as [_ E]. apply Z.leb_gt in E. lia. }
  assert (Hv0 : slots_in_range n v0).
  { apply (store_slots n (repeat None (Z.to_nat n)) v0 0 0); [ | lia | exact Ev0 ].
    unfold slots_in_range. apply Forall_forall. intros c Hc.
    apply repeat_spec in Hc. subst c. exact I. }
  destruct (store "z" _ 0 PosInf) as [ z0 | e ]; cbn [bind]; [ | discriminate ].
  destruct (store "z" z0 1 NegInf) as [ z1 | e ]; cbn [bind]; [ | discriminate ].
  unfold for_loop.
  destruct (for_iter (Z.to_nat (n - 1)) 1 _ (v0, z1, 0)) as [ [[v2 z2] k2] | e ] eqn:E1;
    cbn [bind]; [ | discriminate ].
  assert (Hv2 : slots_in_range n v2).
  { apply (for_iter_ok_invariant
             (fun _ (st : list (option Z) * list (option float) * Z) =>
                slots_in_range n (fst (fst st)))
             _ _ 1 (v0, z1, 0) (v2, z2, k2)) in E1; [ exact E1 | exact Hv0 | ].
    intros q' [[v z] k] [[v' z'] k'] Hq' Hv H. cbn [fst] in *.
    eapply envelope_step_slots; [ | exact Hv | exact H ]. lia. }
  destruct (for_iter (Z.to_nat (n - 0)) 0 _ (0, [], [])) as [ [[k3 dst3] arg3] | e ] eqn:E2;
    cbn [bind]; [ | discriminate ].
  intros H. injection H as <- <-.
  apply (for_iter_ok_invariant (filled_so_far src a b n)) in E2.
  - replace (0 + Z.of_nat (Z.to_nat (n - 0))) with n in E2 by lia. exact E2.
  - cbn [filled_so_far length]. split; [ reflexivity | split; [ reflexivity | ] ].
    intros i Hi. lia.
  - intros q' t t' Hq' Ht Hstep.
    eapply fill_step_filled; [ | exact Hv2 | exact Ht | exact Hstep ]. lia.
Qed.

Lemma distanceTransform1D_output_invariant_witness :
  Z.of_nat (length [NaN; NaN; NaN]) = 3 /\ Z.of_nat (length [0; 0; 0]) = 3
  /\ forall q, 0 <= q < 3 ->
       exists p d, nth_error [0; 0; 0] (Z.to_nat q) = Some p /\ 0 <= p < 3
                   /\ nth_error [NaN; NaN; NaN] (Z.to_nat q) = Some d
                   /\ parabola_at [NaN; NaN; NaN] (Fin 1) (Fin 0) q p d.
Proof.
  apply (distanceTransform1D_output_invariant [NaN; NaN; NaN] 3 (Fin 1) (Fin 0)
           [NaN; NaN; NaN] [0; 0; 0]).
  reflexivity.
Defined.

(** ** Inputs too short for [distanceTransform1D] *)

Lemma distanceTransform1D_empty (src : list float) (a b : float) :
  distanceTransform1D src 0 a b = Err (OutOfBounds "v" 0).
Proof. reflexivity. Qed.

Lemma distanceTransform1D_negative (src : list float) (n : Z) (a b : float) :
  n < 0 -> distanceTransform1D src n a b = Err (BadAlloc "v").
Proof.
  intros H. unfold distanceTransform1D, new_array.
  replace (n <? 0) with true by (symmetry; apply Z.ltb_lt; exact H).
  reflexivity.
Qed.

(** X9: distanceTransform1D returns only for n >= 2, whatever the samples
    and the coefficients are: with n = 0 it writes v[0] into a buffer of no
    cell, with n = 1 its second pass reads z[2]. *)
Theorem distanceTransform1D_returns_only_from_two (src : list float) (n : Z)
    (a b : float) (out : list float * list Z) :
  distanceTransform1D src n a b = Ok out -> 2 <= n.
Proof.
  intros H. destruct (Z_lt_le_dec n 2) as [Hlt | Hge]; [ exfalso | exact Hge ].
  destruct (Z_lt_le_dec n 0) as [Hneg | Hpos].
  - rewrite (distanceTransform1D_negative src n a b Hneg) in H. discriminate.
  - assert (Hn : n = 0 \/ n = 1) by lia. destruct Hn as [-> | ->].
    + rewrite distanceTransform1D_empty in H. discriminate.
    + rewrite distanceTransform1D_single in H. discriminate.
Qed.

Lemma distanceTransform1D_returns_only_from_two_witness :
  distanceTransform1D [NaN; NaN; NaN] 3 (Fin 1) (Fin 0)
  = Ok ([NaN; NaN; NaN], [0; 0; 0])
  /\ 2 <= 3.
Proof.
  split; [ reflexivity | ].
  apply (distanceTransform1D_returns_only_from_two [NaN; NaN; NaN] 3 (Fin 1) (Fin 0)
           ([NaN; NaN; NaN], [0; 0; 0])).
  reflexivity.
Defined.

(** ** The planes [distanceTransform] can handle *)

(** [distanceTransform] on a plane with a cell, as the 2D claim has it,
    for any weight [ax <> 0]: the first row transform fails. *)
Lemma distanceTransform_nonempty_err (score_in : Mat float) (ax bx : Q)
    (ay by_ : float) :
  well_formed score_in ->
  all_finite (data score_in) ->
  1 <= rows score_in ->
  1 <= cols score_in ->
  F.sgn ax <> 0 ->
  exists e, distanceTransform score_in [Fin ax; Fin bx; ay; by_] = Err e.
Proof.
  intros Hwf Hf Hrows Hcols Ha.
  unfold distanceTransform, distanceTransform_with.
  change (load "w" [Fin ax; Fin bx; ay; by_] 0) with (Ok (Fin ax)).
  change (load "w" [Fin ax; Fin bx; ay; by_] 1) with (Ok (Fin bx)).
  change (load "w" [Fin ax; Fin bx; ay; by_] 2) with (Ok ay).
  change (load "w" [Fin ax; Fin bx; ay; by_] 3) with (Ok by_).
  cbn [bind F.neg].
  rewrite (range_cons 0 (rows score_in)) by lia.
  destruct (Z.eq_dec (cols score_in) 1) as [E | E].
  - eexists. apply bind_err. apply mapM_head_err.
    rewrite E. apply distanceTransform1D_single.
  - destruct (ptr_first_row_two score_in Hwf Hf) as (x0 & x1 & rest & Hptr); try lia.
    eexists. apply bind_err. apply mapM_head_err. rewrite Hptr.
    apply distanceTransform1D_underflow; [ lia | ].
    unfold F.sgn in *. simpl in *. intros H. apply Z.sgn_null_iff in H.
    apply Ha. apply Z.sgn_null_iff. lia.
Qed.

Lemma distanceTransform1D_short_err (src : list float) (n : Z) (a b : float) :
  n < 2 -> exists e, distanceTransform1D src n a b = Err e.
Proof.
  intros Hn. destruct (Z_lt_le_dec n 0) as [Hneg | Hpos].
  - eexists. apply distanceTransform1D_negative. exact Hneg.
  - assert (H : n = 0 \/ n = 1) by lia. destruct H as [-> | ->]; eexists.
    + apply distanceTransform1D_empty.
    + apply distanceTransform1D_single.
Qed.

Lemma mapM_head_ok {A B : Type} (f : A -> result B) (x : A) (l : list A)
    (ys : list B) :
  mapM f (x :: l) = Ok ys -> exists y, f x = Ok y.
Proof.
  cbn [mapM]. destruct (f x) as [ y | e ]; cbn [bind]; [ | discriminate ].
  intros _. exists y. reflexivity.
Qed.

(** X10: whatever the scores and the weights are, distanceTransform can
    return only on a 0 x 0 plane or on a plane with at least two rows and
    two columns: each of its two passes hands rows of length cols, then
    rows of length rows, to distanceTransform1D, which never returns on
    fewer than two samples. *)
Theorem distanceTransform_needs_two_rows_and_columns (score_in : Mat float)
    (w : list float) (out : Mat float * Mat Z * Mat Z) :
  0 <= rows score_in ->
  0 <= cols score_in ->
  distanceTransform score_in w = Ok out ->
  (rows score_in = 0 /\ cols score_in = 0)
  \/ (2 <= rows score_in /\ 2 <= cols score_in).
Proof.
  intros Hr Hc. unfold distanceTransform, distanceTransform_with.
  destruct (load "w" w 0) as [ ax | e ]; cbn [bind]; [ | discriminate ].
  destruct (load "w" w 1) as [ bx | e ]; cbn [bind]; [ | discriminate ].
  destruct (load "w" w 2) as [ ay | e ]; cbn [bind]; [ | discriminate ].
  destruct (load "w" w 3) as [ by_ | e ]; cbn [bind]; [ | discriminate ].
  destruct (mapM _ (range 0 (rows score_in))) as [ pass1 | e ] eqn:E1; cbn [bind];
    [ | discriminate ].
  destruct (mapM _ (range 0 (cols score_in))) as [ pass2 | e ] eqn:E2; cbn [bind];
    [ | discriminate ].
  intros _.
  assert (Hcols : cols score_in = 0 \/ 2 <= rows score_in).
  { destruct (Z.eq_dec (cols score_in) 0) as [Ec | Ec]; [ left; exact Ec | right ].
    rewrite (range_cons 0 (cols score_in)) in E2 by lia.
    apply mapM_head_ok in E2. destruct E2 as [y Hy].
    destruct (Z_lt_le_dec (rows score_in) 2) as [Hlt | Hge]; [ | exact Hge ].
    destruct (distanceTransform1D_short_err
                (ptr (transpose (created (cols score_in, rows score_in) (map fst pass1))) 0)
                (rows score_in) (- ay)%F (- by_)%F Hlt) as [e He].
    cbv beta in Hy. rewrite He in Hy. discriminate. }
  assert (Hrows : rows score_in = 0 \/ 2 <= cols score_in).
  { destruct (Z.eq_dec (rows score_in) 0) as [Er | Er]; [ left; exact Er | right ].
    rewrite (range_cons 0 (rows score_in)) in E1 by lia.
    apply mapM_head_ok in E1. destruct E1 as [y Hy].
    destruct (Z_lt_le_dec (cols score_in) 2) as [Hlt | Hge]; [ | exact Hge ].
    destruct (distanceTransform1D_short_err (ptr score_in 0) (cols score_in)
                (- ax)%F (- bx)%F Hlt) as [e He].
    cbv beta in Hy. rewrite He in Hy. discriminate. }
  lia.
Qed.

Lemma distanceTransform_needs_two_rows_and_columns_witness :
  ((0 = 0 /\ 0 = 0) \/ (2 <= 0 /\ 2 <= 0))
  /\ ((2 = 0 /\ 2 = 0) \/ (2 <= 2 /\ 2 <= 2)).
Proof.
  split.
  - apply (distanceTransform_needs_two_rows_and_columns (mkMat 0 0 true [])
             [Fin 1; Fin 1; Fin 1; Fin 1]
             (mkMat 0 0 true [], mkMat 0 0 true [], mkMat 0 0 true []));
      [ simpl; lia | simpl; lia | reflexivity ].
  - apply (distanceTransform_needs_two_rows_and_columns
             (mkMat 2 2 true [NaN; NaN; NaN; NaN])
             [Fin 1; Fin 1; Fin 1; Fin 1]
             (mkMat 2 2 true [NaN; NaN; NaN; NaN],
              mkMat 2 2 true [0; 0; 0; 0], mkMat 2 2 true [0; 0; 0; 0]));
      [ simpl; lia | simpl; lia | reflexivity ].
Defined.

(** X11: distanceTransform reads w[0] .. w[3] before anything else: with
    fewer than four weights the read of the first missing one is out of
    bounds, whatever the plane is. *)
Theorem distanceTransform_needs_four_weights (score_in : Mat float) (w : list float) :
  (length w < 4)%nat ->
  distanceTransform score_in w = Err (OutOfBounds "w" (Z.of_nat (length w))).
Proof.
  intros H.
  destruct w as [ | w0 [ | w1 [ | w2 [ | w3 w' ] ] ] ];
    [ reflexivity .. | simpl in H; lia ].
Qed.

Lemma distanceTransform_needs_four_weights_witness :
  distanceTransform (plane 1 1 [0]) [Fin 1; Fin 1] = Err (OutOfBounds "w" 2).
Proof.
  apply (distanceTransform_needs_four_weights (plane 1 1 [0]) [Fin 1; Fin 1]).
  simpl. lia.
Defined.

(** ** A leaf whose response has a cell *)

Lemma moderate_all_finite (xs : list float) : Forall moderate xs -> all_finite xs.
Proof.
  unfold all_finite. intros H. apply forallb_forall. intros x Hx.
  rewrite Forall_forall in H. specialize (H x Hx).
  destruct x; [ destruct H | destruct H | reflexivity | destruct H ].
Qed.

Lemma clear_of_zero_sgn (q : Q) : clear_of_zero q -> F.sgn q <> 0.
Proof.
  unfold clear_of_zero, F.sgn, Qle. cbn [Qnum Qden Qopp Z.opp].
  intros [H | H] E; apply -> Z.sgn_null_iff in E; rewrite E in H; simpl in H; lia.
Qed.

(** X12: minRecursive never returns on a leaf with at least one mixture
    whose first response plane is a well-formed plane with a cell and whose
    first weight vector starts with ax, bx, when the scores of that plane
    and ax, bx are of moderate size (at most 2^125 in magnitude, so that no
    sum of line 167 overflows) and ax is clear of zero: the first row
    transform of that plane fails before any score slot is written. *)
Theorem minRecursive_leaf_never_returns (self parent : Part)
    (scores : list (Mat float)) (nparts scale : Z) (p : Mat float)
    (ax bx : Q) (ay by_ : float) :
  children self = [] ->
  1 <= nmixtures self ->
  0 <= nparts * nmixtures self * scale + nmixtures self * pos self ->
  nth_error scores
    (Z.to_nat (nparts * nmixtures self * scale + nmixtures self * pos self)) = Some p ->
  nth_error (w self) 0 = Some [Fin ax; Fin bx; ay; by_] ->
  moderate (Fin ax) -> clear_of_zero ax -> moderate (Fin bx) ->
  well_formed p -> Forall moderate (data p) -> 1 <= rows p -> 1 <= cols p ->
  is_ok (minRecursive self parent scores nparts scale) = false.
Proof.
  intros Hleaf Hmix HNs Hp Hw _ Ha _ Hwf Hmod Hrows Hcols.
  rewrite minRecursive_unfold. unfold isLeaf. rewrite Hleaf. cbn [bind].
  unfold pass_message, transform_mixtures.
  rewrite (range_cons 0 (nmixtures self)) by lia.
  destruct (distanceTransform_nonempty_err p ax bx ay by_ Hwf
              (moderate_all_finite _ Hmod) Hrows Hcols (clear_of_zero_sgn ax Ha))
    as [e He].
  erewrite bind_err; [ reflexivity | ].
  apply bind_err. apply bind_err. apply mapM_head_err. unfold transform_mixture.
  rewrite Z.add_0_r. rewrite (load_nth "scores" scores _ p HNs Hp). cbn [bind].
  rewrite (load_nth "w" (w self) 0 _ ltac:(lia) Hw). cbn [bind].
  rewrite He. reflexivity.
Qed.

Lemma plane_moderate (r c : Z) (xs : list Z) :
  Forall (fun x => - 2 ^ 125 <= x <= 2 ^ 125) xs -> Forall moderate (data (plane r c xs)).
Proof.
  intros H. unfold plane. cbn [data]. apply Forall_map.
  eapply Forall_impl; [ | exact H ].
  intros x Hx. cbv beta in Hx. unfold F.of_int, moderate, moderate_bound.
  rewrite <- inject_Z_opp, <- !Zle_Qle. exact Hx.
Qed.

Lemma minRecursive_leaf_never_returns_witness :
  is_ok (minRecursive (two_mixtures 1 []) (two_mixtures 0 [two_mixtures 1 []])
           [flat5; flat5; peak5; flat5] 2 0) = false.
Proof.
  apply (minRecursive_leaf_never_returns (two_mixtures 1 [])
           (two_mixtures 0 [two_mixtures 1 []])
           [flat5; flat5; peak5; flat5] 2 0 peak5 1 1 (F.of_int 1) (F.of_int 1)).
  - reflexivity.
  - simpl. lia.
  - simpl. lia.
  - reflexivity.
  - reflexivity.
  - split; unfold moderate_bound, Qle; simpl; lia.
  - right. unfold Qle. simpl. lia.
  - split; unfold moderate_bound, Qle; simpl; lia.
  - repeat split; simpl; lia.
  - apply plane_moderate. repeat constructor; lia.
  - simpl. lia.
  - simpl. lia.
Defined.

(** ** The anchor shift on its own *)

Lemma shift_by_anchor_blank_witness :
  shift_by_anchor scenario_leaf peak5 peak5 (filled (5, 5) 3) (filled (5, 5) 4)
  = Ok (filled (5, 5) NegInf, filled (5, 5) 0, filled (5, 5) 0)
  /\ (filled (5, 5) NegInf, filled (5, 5) 0, filled (5, 5) 0)
     = (filled (size peak5) NegInf,
        filled (size (filled (5, 5) 3)) 0,
        filled (size (filled (5, 5) 4)) 0).
Proof.
  split; [ reflexivity | ].
  apply (shift_by_anchor_blank scenario_leaf peak5 peak5 (filled (5, 5) 3)
           (filled (5, 5) 4)).
  reflexivity.
Defined.

Lemma range_ok_false (start stop extent : Z) :
  0 <= extent -> stop < 0 \/ (0 < start /\ stop < start) ->
  range_ok (start, stop) extent = false.
Proof.
  intros He H. unfold range_ok.
  destruct ((start =? 0) && (stop =? extent)) eqn:E1.
  - apply andb_true_iff in E1. destruct E1 as [E1 E2].
    apply Z.eqb_eq in E1. apply Z.eqb_eq in E2. lia.
  - destruct ((0 <=? start) && (start <=? stop) && (stop <=? extent)) eqn:E2;
      [ | reflexivity ].
    apply andb_true_iff in E2. destruct E2 as [E2 E3].
    apply andb_true_iff in E2. destruct E2 as [E2 E4].
    apply Z.leb_le in E2. apply Z.leb_le in E3. apply Z.leb_le in E4. lia.
Qed.

(** X14: an anchor whose x offset exceeds the width of the plane, to
    either side, is not treated as an empty overlap: the range of the
    sub-matrix runs backwards or below 0, and the shift fails the range
    assertion of the sub-matrix header. *)
Theorem shift_by_anchor_rejects_far_anchor (self : Part) (score_in score_dt : Mat float)
    (Ix_dt Iy_dt : Mat Z) :
  0 <= rows score_dt ->
  0 <= cols score_in ->
  cols score_in < Z.abs (fst (anchor self)) ->
  shift_by_anchor self score_in score_dt Ix_dt Iy_dt
  = Err (AssertionFailed
           "0 <= range.start && range.start <= range.end && range.end <= extent").
Proof.
  intros Hrows HX Hfar. unfold shift_by_anchor.
  destruct (anchor self) as [anchor_x anchor_y]. cbn [fst] in Hfar. cbv zeta.
  apply bind_err. unfold assign_roi. apply bind_err. unfold roi, filled, size.
  cbn [rows cols fst snd].
  rewrite range_ok_false; [ reflexivity | exact Hrows | lia ].
Qed.

Lemma shift_by_anchor_rejects_far_anchor_witness :
  shift_by_anchor (single_mixture 1 (6, 0) []) peak5 peak5
    (filled (5, 5) 0) (filled (5, 5) 0)
  = Err (AssertionFailed
           "0 <= range.start && range.start <= range.end && range.end <= extent").
Proof.
  apply (shift_by_anchor_rejects_far_anchor (single_mixture 1 (6, 0) []) peak5 peak5
           (filled (5, 5) 0) (filled (5, 5) 0));
    simpl; lia.
Defined.

(** ** No deformation cost *)

Lemma nth_error_set_nth_same {T : Type} (p : list T) (i : nat) (x : T) :
  (i < length p)%nat -> nth_error (set_nth p i x) i = Some x.
Proof.
  revert i. induction p as [ | y p IH ]; intros [ | i ] H; simpl in *; try lia.
  - reflexivity.
  - apply IH. lia.
Qed.

Lemma nth_error_set_nth_other {T : Type} (p : list T) (i j : nat) (x : T) :
  i <> j -> nth_error (set_nth p i x) j = nth_error p j.
Proof.
  revert i j. induction p as [ | y p IH ]; intros [ | i ] [ | j ] H; simpl;
    try reflexivity; try congruence.
  apply IH. congruence.
Qed.

Lemma store_ok {T : Type} (buffer : string) (p : list (option T)) (i : Z) (x : T) :
  0 <= i < Z.of_nat (length p) ->
  store buffer p i x = Ok (set_nth p (Z.to_nat i) (Some x)).
Proof.
  intros H. unfold store.
  replace (i <? 0) with false by (symmetry; apply Z.ltb_ge; lia).
  replace (Z.of_nat (length p) <=? i) with false by (symmetry; apply Z.leb_gt; lia).
  reflexivity.
Qed.

Lemma load_cell_ok {T : Type} (buffer : string) (p : list (option T)) (i : Z) (x : T) :
  0 <= i -> nth_error p (Z.to_nat i) = Some (Some x) -> load_cell buffer p i = Ok x.
Proof.
  intros Hi H. unfold load_cell. rewrite (load_nth buffer p i (Some x) Hi H).
  reflexivity.
Qed.

(** Two equal finite samples under [a = 0] and [b = 0] intersect at 0/0. *)
Lemma intersection_of_equals (src : list float) (c : Q) (q vk : Z)
    (v : list (option Z)) (k : Z) :
  load_cell "v" v k = Ok vk ->
  load "src" src q = Ok (Fin c) ->
  load "src" src vk = Ok (Fin c) ->
  intersection src (F.of_int 0) (F.of_int 0) q v k = Ok NaN.
Proof.
  intros Hv Hq Hvk. unfold intersection. rewrite Hv. cbn [bind].
  rewrite Hq. cbn [bind]. rewrite Hvk. cbn [bind]. f_equal.
  destruct c as [cn cd]. unfold F.of_int, F.sub.
  cbn [F.neg F.add F.mul F.div].
  replace (F.sgn (inject_Z 2 * inject_Z 0 * inject_Z (q - vk))) with 0 by reflexivity.
  cbn [Z.eqb]. unfold F.signed_inf.
  match goal with
  | |- (if F.sgn ?num =? 0 then _ else _) = _ =>
      replace (F.sgn num) with 0; [ reflexivity | ]
  end.
  symmetry. unfold F.sgn. apply Z.sgn_null_iff. simpl. ring.
Qed.

Lemma for_iter_runs {St : Type} (Inv : Z -> St -> Prop)
    (body : Z -> St -> result St) (count : nat) :
  forall (q : Z) (s : St),
    Inv q s ->
    (forall q' t, q <= q' < q + Z.of_nat count -> Inv q' t ->
       exists t', body q' t = Ok t' /\ Inv (q' + 1) t') ->
    exists s', for_iter count q body s = Ok s' /\ Inv (q + Z.of_nat count) s'.
Proof.
  induction count as [ | count IH ]; intros q s Hs Hbody; cbn [for_iter].
  - exists s. rewrite Z.add_0_r. split; [ reflexivity | exact Hs ].
  - destruct (Hbody q s) as (s1 & E & Hs1); [ lia | exact Hs | ].
    rewrite E. cbn [bind].
    replace (q + Z.of_nat (S count)) with (q + 1 + Z.of_nat count) by lia.
    apply IH; [ exact Hs1 | ].
    intros q' t Hq'. apply Hbody. lia.
Qed.

(** With equal samples and no deformation cost no candidate pops the
    stack: each is pushed with a NaN breakpoint. *)
Lemma envelope_step_pushes (fuel : nat) (c : Q) (m : nat) (q : Z)
    (st : list (option Z) * list (option float) * Z) :
  1 <= q < Z.of_nat m ->
  stacked (Z.of_nat m) q st ->
  exists st',
    envelope_step fuel (repeat (Fin c) m) (F.of_int 0) (F.of_int 0) q st = Ok st'
    /\ stacked (Z.of_nat m) (q + 1) st'.
Proof.
  intros Hq. destruct st as [[v z] k].
  intros (Hk & Hlv & Hlz & Hv & Hz0 & Hz). subst k. unfold envelope_step.
  assert (Hsrc : forall i, 0 <= i < Z.of_nat m ->
                   load "src" (repeat (Fin c) m) i = Ok (Fin c)).
  { intros i Hi. apply load_nth; [ lia | ]. apply nth_error_repeat. lia. }
  rewrite (intersection_of_equals _ c q (q - 1) v (q - 1)).
  2:{ apply load_cell_ok; [ lia | apply Hv; lia ]. }
  2:{ apply Hsrc. lia. }
  2:{ apply Hsrc. lia. }
  cbn [bind].
  assert (Hpop : pop_loop fuel (repeat (Fin c) m) (F.of_int 0) (F.of_int 0) q v z
                   (q - 1) NaN = Ok (q - 1, NaN)).
  { assert (Hzk : exists zk, load_cell "z" z (q - 1) = Ok zk).
    { destruct (Z.eq_dec q 1) as [-> | Hne].
      - exists PosInf. apply load_cell_ok; [ lia | exact Hz0 ].
      - exists NaN. apply load_cell_ok; [ lia | apply Hz; lia ]. }
    destruct Hzk as [zk Hzk]. destruct fuel; cbn [pop_loop]; rewrite Hzk; reflexivity. }
  rewrite Hpop. cbn [bind]. replace (q - 1 + 1) with q by lia.
  rewrite (store_ok "v" v q q) by lia. cbn [bind].
  rewrite (store_ok "z" z q NaN) by lia. cbn [bind].
  rewrite (store_ok "z" _ (q + 1) PosInf) by (rewrite set_nth_length; lia).
  cbn [bind]. eexists. split; [ reflexivity | ].
  cbn [stacked]. rewrite !set_nth_length.
  split; [ lia | split; [ exact Hlv | split; [ exact Hlz | split; [ | split ] ] ] ].
  - intros j Hj. destruct (Z.eq_dec j q) as [-> | Hne].
    + apply nth_error_set_nth_same. lia.
    + rewrite nth_error_set_nth_other by lia. apply Hv. lia.
  - rewrite !nth_error_set_nth_other by lia. exact Hz0.
  - intros j Hj. rewrite nth_error_set_nth_other by lia.
    destruct (Z.eq_dec j q) as [-> | Hne].
    + apply nth_error_set_nth_same. lia.
    + rewrite nth_error_set_nth_other by lia. apply Hz. lia.
Qed.

(** With a NaN breakpoint at [z[1]] the cursor of the second pass stays on
    the first parabola. *)
Lemma fill_step_stays (fuel : nat) (c : Q) (m : nat) (q : Z)
    (v : list (option Z)) (z : list (option float)) (dst : list float) (arg : list Z) :
  (1 <= m)%nat ->
  nth_error v 0 = Some (Some 0) ->
  nth_error z 1 = Some (Some NaN) ->
  fill_step fuel (repeat (Fin c) m) (F.of_int 0) (F.of_int 0) v z q (0, dst, arg)
  = Ok (0, dst ++ [Fin c], arg ++ [0]).
Proof.
  intros Hm Hv Hz. unfold fill_step.
  assert (Hadv : advance fuel z 0 q = Ok 0).
  { destruct fuel; cbn [advance];
      rewrite (load_cell_ok "z" z (0 + 1) NaN ltac:(lia) Hz); reflexivity. }
  rewrite Hadv. cbn [bind].
  rewrite (load_cell_ok "v" v 0 0 ltac:(lia) Hv). cbn [bind].
  rewrite (load_nth "src" (repeat (Fin c) m) 0 (Fin c))
    by (try lia; apply nth_error_repeat; lia).
  cbn [bind]. destruct c as [cn cd]. unfold F.of_int. cbn [F.mul F.add].
  do 4 f_equal. unfold Qplus, Qmult, inject_Z. cbn [Qnum Qden].
  rewrite !Z.mul_0_l, !Z.add_0_l, Z.mul_1_r. reflexivity.
Qed.

(** X15: on n >= 2 equal finite samples with a = 0 and b = 0 the transform
    returns: dst is the input, and arg is 0 at every position (every
    intersection is 0/0, so no breakpoint ever compares). *)
Theorem distanceTransform1D_without_deformation (c : Q) (m : nat) :
  (2 <= m)%nat ->
  distanceTransform1D (repeat (Fin c) m) (Z.of_nat m) (F.of_int 0) (F.of_int 0)
  = Ok (repeat (Fin c) m, repeat 0 m).
Proof.
  intros Hm. destruct m as [ | [ | m ] ]; try lia.
  unfold distanceTransform1D.
  rewrite new_array_succ. cbn [bind].
  replace (Z.of_nat (S (S m)) + 1) with (Z.of_nat (S (S (S m)))) by lia.
  rewrite new_array_succ. cbn [bind repeat].
  rewrite store_head. cbn [bind].
  rewrite store_head. cbn [bind].
  rewrite store_second. cbn [bind].
  unfold for_loop.
  destruct (for_iter_runs (stacked (Z.of_nat (S (S m))))
              (envelope_step (loop_fuel (Z.of_nat (S (S m)))) (Fin c :: Fin c :: repeat (Fin c) m)
                 (F.of_int 0) (F.of_int 0))
              (Z.to_nat (Z.of_nat (S (S m)) - 1)) 1
              (Some 0 :: None :: repeat None m,
               Some PosInf :: Some NegInf :: None :: repeat None m, 0))
    as ([[v z] k] & -> & Hst).
  { cbn [stacked length]. rewrite !repeat_length.
    split; [ lia | split; [ lia | split; [ lia | split; [ | split ] ] ] ].
    - intros j Hj. assert (j = 0) as -> by lia. reflexivity.
    - reflexivity.
    - intros j Hj. lia. }
  { intros q' t Hq' Ht.
    apply (envelope_step_pushes _ c (S (S m)) q' t); [ lia | exact Ht ]. }
  cbn [bind].
  replace (1 + Z.of_nat (Z.to_nat (Z.of_nat (S (S m)) - 1))) with (Z.of_nat (S (S m))) in Hst
    by lia.
  destruct Hst as (_ & _ & _ & Hv & _ & Hz).
  destruct (for_iter_runs
              (fun q (st : Z * list float * list Z) =>
                 st = (0, repeat (Fin c) (Z.to_nat q), repeat 0 (Z.to_nat q)))
              (fill_step (loop_fuel (Z.of_nat (S (S m)))) (Fin c :: Fin c :: repeat (Fin c) m)
                 (F.of_int 0) (F.of_int 0) v z)
              (Z.to_nat (Z.of_nat (S (S m)) - 0)) 0 (0, [], []))
    as (st & -> & ->).
  { reflexivity. }
  { intros q' t Hq' ->. eexists. split.
    - apply (fill_step_stays _ c (S (S m))); [ lia | apply (Hv 0); lia | apply (Hz 1); lia ].
    - replace (Z.to_nat (q' + 1)) with (S (Z.to_nat q')) by lia.
      cbn [repeat]. rewrite !repeat_cons. reflexivity. }
  cbn [bind].
  replace (Z.to_nat (0 + Z.of_nat (Z.to_nat (Z.of_nat (S (S m)) - 0)))) with (S (S m))
    by lia.
  reflexivity.
Qed.

Lemma distanceTransform1D_without_deformation_witness :
  distanceTransform1D [Fin 7; Fin 7; Fin 7] 3 (F.of_int 0) (F.of_int 0)
  = Ok ([Fin 7; Fin 7; Fin 7], [0; 0; 0]).
Proof.
  apply (distanceTransform1D_without_deformation 7 3). lia.
Defined.

(** ** The slots a message touches *)

Lemma assign_frame {T : Type} (buffer : string) (v v' : list T) (i : Z) (x : T) :
  assign buffer v i x = Ok v' ->
  length v' = length v
  /\ forall j, j <> Z.to_nat i -> nth_error v' j = nth_error v j.
Proof.
  unfold assign. destruct ((i <? 0) || (Z.of_nat (length v) <=? i)); [ discriminate | ].
  intros H. injection H as <-. split; [ apply set_nth_length | ].
  intros j Hj. apply nth_error_set_nth_other. congruence.
Qed.

Lemma mix_step_frame (self : Part) (Np m : Z) (st st' : mixing) :
  mix_step self Np m st = Ok st' ->
  0 <= Np + m
  /\ length (scores st') = length (scores st)
  /\ forall j, j <> Z.to_nat (Np + m) -> nth_error (scores st') j = nth_error (scores st) j.
Proof.
  unfold mix_step.
  destruct (load "bias" (bias self) m) as [ bias_m | e ]; cbn [bind]; [ | discriminate ].
  destruct (mapM _ (range 0 (nmixtures self))) as [ weighted | e ]; cbn [bind];
    [ | discriminate ].
  destruct (reduceMax weighted) as [ [maxv maxi] | e ]; cbn [bind]; [ | discriminate ].
  destruct (reducePickIndex (Ixi st) maxi) as [ Ixm | e ]; cbn [bind]; [ | discriminate ].
  destruct (reducePickIndex (Iyi st) maxi) as [ Iym | e ]; cbn [bind]; [ | discriminate ].
  destruct (assign "scores" (scores st) (Np + m) maxv) as [ scores' | e ] eqn:E;
    cbn [bind]; [ | discriminate ].
  intros H. injection H as <-. cbn [scores].
  split; [ | apply (assign_frame _ _ _ _ _ E) ].
  unfold assign in E. destruct (Np + m <? 0) eqn:En; [ discriminate | ].
  apply Z.ltb_ge in En. exact En.
Qed.

(** X16: whenever the work of minRecursive at one node returns, the score
    vector has kept its length and every slot outside the parent's
    Np .. Np + nmixtures - 1 holds the plane it held before. *)
Theorem pass_message_frame (self parent : Part) (scores0 : list (Mat float))
    (nparts scale : Z) (st : mixing) :
  pass_message self parent scores0 nparts scale = Ok st ->
  length (scores st) = length scores0
  /\ forall j : nat,
       Z.of_nat j < nparts * nmixtures self * scale + nmixtures self * pos parent
       \/ nparts * nmixtures self * scale + nmixtures self * pos parent + nmixtures self
          <= Z.of_nat j ->
       nth_error (scores st) j = nth_error scores0 j.
Proof.
  unfold pass_message.
  destruct (transform_mixtures self scores0 _) as [ [[si ixi] iyi] | e ]; cbn [bind];
    [ | discriminate ].
  set (Np := nparts * nmixtures self * scale + nmixtures self * pos parent).
  unfold for_loop. intros H.
  apply (for_iter_ok_invariant
           (fun q (t : mixing) =>
              length (scores t) = length scores0
              /\ forall j : nat, Z.of_nat j < Np \/ Np + q <= Z.of_nat j ->
                   nth_error (scores t) j = nth_error scores0 j)) in H.
  - destruct H as [Hlen Hframe]. split; [ exact Hlen | ].
    intros j Hj. apply Hframe.
    destruct (Z_lt_le_dec (nmixtures self) 0); lia.
  - cbn [scores]. split; [ reflexivity | ]. intros j _. reflexivity.
  - intros q' t t' Hq' [Hlen Hframe] Hstep.
    apply mix_step_frame in Hstep. destruct Hstep as (Hpos & Hlen' & Hsame).
    split; [ congruence | ].
    intros j Hj. rewrite Hsame by lia. apply Hframe. lia.
Qed.

Lemma pass_message_frame_witness :
  exists st,
    pass_message (two_mixtures 1 []) (two_mixtures 0 [two_mixtures 1 []])
      [mkMat 0 0 true []; mkMat 0 0 true []; mkMat 0 0 true []; mkMat 0 0 true []] 2 0
    = Ok st
    /\ length (scores st) = 4%nat
    /\ forall j : nat,
         Z.of_nat j < 2 * 2 * 0 + 2 * 0 \/ 2 * 2 * 0 + 2 * 0 + 2 <= Z.of_nat j ->
         nth_error (scores st) j
         = nth_error [mkMat 0 0 true []; mkMat 0 0 true [];
                      mkMat 0 0 true []; mkMat 0 0 true []] j.
Proof.
  eexists. split; [ reflexivity | ].
  apply (pass_message_frame (two_mixtures 1 []) (two_mixtures 0 [two_mixtures 1 []])
           [mkMat 0 0 true []; mkMat 0 0 true []; mkMat 0 0 true []; mkMat 0 0 true []]
           2 0).
  reflexivity.
Defined.
